(** * django_cte.query: the CTE-aware query and compiler shim

    A shallow embedding of [django_cte/query.py].  Python objects live in a
    store of query objects and list objects, so that two attributes holding
    the same list are visibly aliased; exceptions are an outcome of every
    operation and leave the store as it was when they were raised; whatever
    the host ORM does (its [Query], its compilers) is an interface the
    development is parametric in.  [from_query], which builds an instance
    and then copies attributes of the host from one query to another, has
    no part in what follows and is left out. *)

From Stdlib Require Import String Ascii List.
From stdpp Require Import base option gmap strings list.

Open Scope string_scope.
Open Scope list_scope.

(** ** Outcomes *)

(** The Python exceptions that can cross the shim. *)
Inductive exn : Type :=
  | TypeError (msg : string)
  | ValueError (msg : string)
  | AttributeError (attr : string)
  | KeyError (key : string)
  | HostError (tag : string).

Definition loc := positive.

(** What no Python run shows but a store or a fuel bound can: a reference to
    nothing, or compilers nested deeper than the fuel. *)
Inductive fault : Type :=
  | OutOfFuel
  | Dangling (l : loc).

Inductive res (A : Type) : Type :=
  | Ok (a : A)
  | Raise (e : exn)
  | Fault (f : fault).
Arguments Ok {A} a.
Arguments Raise {A} e.
Arguments Fault {A} f.

Definition res_bind {A B} (r : res A) (k : A → res B) : res B :=
  match r with
  | Ok a => k a
  | Raise e => Raise e
  | Fault f => Fault f
  end.

Definition res_map {A B} (f : A → B) (r : res A) : res B :=
  res_bind r (λ a, Ok (f a)).

Declare Scope res_scope.
Delimit Scope res_scope with res.
Notation "x <- r ;; k" := (res_bind r (λ x, k))
  (at level 100, r at next level, right associativity) : res_scope.

(** ** Python strings and sequences *)

(** [sep.join(l)] *)
Fixpoint join (sep : string) (l : list string) : string :=
  match l with
  | [] => ""
  | [x] => x
  | x :: rest => x +:+ sep +:+ join sep rest
  end.

(** Truth value of a [str], of a [list] and of an attribute that is [None]
    or a [str]. *)
Definition truthy_str (s : string) : bool :=
  match s with "" => false | _ => true end.

Definition truthy_list {A} (l : list A) : bool :=
  match l with [] => false | _ => true end.

Definition truthy_opt_str (o : option string) : bool :=
  match o with None => false | Some s => truthy_str s end.

(** [dict.get(key, default)] on a dictionary kept as its items. *)
Fixpoint dict_get {K V} `{EqDecision K} (d : list (K * V)) (k : K) (default : V) : V :=
  match d with
  | [] => default
  | (k', v) :: d' => if decide (k' = k) then v else dict_get d' k default
  end.

Fixpoint dict_lookup {K V} `{EqDecision K} (d : list (K * V)) (k : K) : option V :=
  match d with
  | [] => None
  | (k', v) :: d' => if decide (k' = k) then Some v else dict_lookup d' k
  end.

(** [template.format] with keyword arguments, for templates whose replacement fields are
    plain keyword names: text outside braces is copied, [{key}] is replaced
    by the value of [key], a key that is not given raises [KeyError] and a
    field left open raises [ValueError].  [field] is the name read so far
    when the scan is inside a field. *)
Fixpoint format_from (t : string) (field : option string)
    (kwargs : list (string * string)) : res string :=
  match t with
  | "" =>
      match field with
      | None => Ok ""
      | Some _ => Raise (ValueError "expected '}' before end of string")
      end
  | String c t' =>
      match field with
      | None =>
          if decide (c = "{"%char) then format_from t' (Some "") kwargs
          else res_map (String c) (format_from t' None kwargs)
      | Some f =>
          if decide (c = "}"%char) then
            match dict_lookup kwargs f with
            | Some v => res_map (String.append v) (format_from t' None kwargs)
            | None => Raise (KeyError f)
            end
          else format_from t' (Some (f +:+ String c "")) kwargs
      end
  end.

Definition format (t : string) (kwargs : list (string * string)) : res string :=
  format_from t None kwargs.

(** A parameter sequence as Python has it: the host's compilers hand back a
    list or a tuple, [generate_sql] builds a tuple. *)
Inductive pyseq (A : Type) : Type :=
  | PyList (items : list A)
  | PyTuple (items : list A).
Arguments PyList {A} items.
Arguments PyTuple {A} items.

Definition items {A} (s : pyseq A) : list A :=
  match s with PyList l | PyTuple l => l end.

(** ** Classes *)

(** The query classes: the host's, the shim's, and subclasses of either that
    a project may declare. *)
Inductive Klass : Type :=
  | Query
  | UpdateQuery
  | DeleteQuery
  | HostSubclass (cls : string)
  | CTEQuery
  | CTEUpdateQuery
  | CTEDeleteQuery
  | CTESubclass (cls : string).

Global Instance Klass_eq_dec : EqDecision Klass.
Proof. solve_decision. Defined.

(** [isinstance(q, CTEQuery)] by the class of [q]. *)
Definition is_CTEQuery (k : Klass) : bool :=
  match k with
  | CTEQuery | CTEUpdateQuery | CTEDeleteQuery | CTESubclass _ => true
  | Query | UpdateQuery | DeleteQuery | HostSubclass _ => false
  end.

Inductive CompilerKlass : Type :=
  | SQLCompiler
  | SQLUpdateCompiler
  | SQLDeleteCompiler
  | HostCompiler (cls : string)
  | CTEQueryCompiler
  | CTEUpdateQueryCompiler
  | CTEDeleteQueryCompiler.

Global Instance CompilerKlass_eq_dec : EqDecision CompilerKlass.
Proof. solve_decision. Defined.

Definition QUERY_TYPES : list (Klass * Klass) :=
  [ (UpdateQuery, CTEUpdateQuery);
    (DeleteQuery, CTEDeleteQuery) ].

Definition COMPILER_TYPES : list (Klass * CompilerKlass) :=
  [ (CTEUpdateQuery, CTEUpdateQueryCompiler);
    (CTEDeleteQuery, CTEDeleteQueryCompiler) ].

(** The host compiler each compiler of the shim extends: where
    [super(...).as_sql] goes. *)
Definition super_compiler (k : CompilerKlass) : option CompilerKlass :=
  match k with
  | CTEQueryCompiler => Some SQLCompiler
  | CTEUpdateQueryCompiler => Some SQLUpdateCompiler
  | CTEDeleteQueryCompiler => Some SQLDeleteCompiler
  | _ => None
  end.

Definition TEMPLATE : string := "{name} AS ({query})".

(** ** The host ORM *)

(** What the shim asks of the framework it extends.  [QState] stands for the
    attributes of a query object that the host owns; the host's methods read
    and write those and nothing else, which is why they are functions of
    [QState]: the host has never heard of [_with_ctes]. *)
Class HostORM : Type := {
  Param : Type;
  Connection : Type;
  Expression : Type;
  QState : Type;
  CallArgs : Type;
  Connector : Type;
  (** a call without arguments *)
  no_args : CallArgs;
  (** [query.combinator], [None] also when the host has no such attribute *)
  combinator : QState → option string;
  (** [query.annotation_select.items()] *)
  annotation_select : QState → list (string * Expression);
  (** [django.db.connections[using]] *)
  connections : string → res Connection;
  (** [connection.ops.check_expression_support(expression)] *)
  check_expression_support : Connection → Expression → res ();
  (** [django.VERSION], its first two numbers *)
  django_VERSION : nat * nat;
  (** [Query.get_compiler(using, connection)] as the host itself has it, on
      a query object of a class with these attributes: the class of the
      compiler it answers and the connection that compiler gets *)
  Query_get_compiler :
    Klass → QState → option string → option Connection →
    res (CompilerKlass * option Connection);
  (** the host's part of [__init__] for an instance of a class *)
  Query__init__ : Klass → CallArgs → res QState;
  (** [Query.combine(self, other, connector)]: it changes the host
      attributes of [self], also when it raises *)
  Query_combine : QState → QState → Connector → res () * QState;
  (** [Query.clone] and [Query.chain], by name: the host attributes of the
      copy *)
  Query_copy : string → QState → Klass → CallArgs → res QState;
  (** whether the host's copy of that name copies the instance dictionary,
      shim attributes included (a newer host does, an older one copies the
      attributes it knows one by one) *)
  Query_copy_keeps_dict : string → bool;
  (** [as_sql] of a host compiler class *)
  SQLCompiler_as_sql :
    CompilerKlass → QState → option Connection → CallArgs →
    res (string * pyseq Param)
}.

Section Shim.
Context `{HostORM}.

(** ** The store *)

(** A query object: its class, the attributes the host owns, and the
    attribute the shim adds, which holds a reference to a list object (or is
    missing, on an object no [CTEQuery.__init__] has run on). *)
Record QueryObj : Type := {
  q_class : Klass;
  q_host : QState;
  _with_ctes : option loc
}.

(** An entry of the list: a name and a reference to the query object of the
    body. *)
Record CTE : Type := {
  name : string;
  query : loc
}.

Record Store : Type := {
  queries : gmap loc QueryObj;
  lists : gmap loc (list CTE)
}.

(** Stateful operations.  An exception comes with the store as it is when
    the exception is raised. *)
Definition M (A : Type) : Type := Store → res A * Store.

Definition ret {A} (a : A) : M A := λ h, (Ok a, h).

Definition bind {A B} (m : M A) (k : A → M B) : M B :=
  λ h, match m h with
       | (Ok a, h') => k a h'
       | (Raise e, h') => (Raise e, h')
       | (Fault f, h') => (Fault f, h')
       end.

Definition raise {A} (e : exn) : M A := λ h, (Raise e, h).

Definition lift {A} (r : res A) : M A := λ h, (r, h).

Definition when (b : bool) (m : M ()) : M () := if b then m else ret ().

Declare Scope M_scope.
Delimit Scope M_scope with M.
Notation "x <~ m ;; k" := (bind m (λ x, k))
  (at level 100, m at next level, right associativity) : M_scope.
Notation "m ;;; k" := (bind m (λ _, k))
  (at level 100, right associativity) : M_scope.

(** Reading the store. *)
Definition deref (h : Store) (q : loc) : res QueryObj :=
  match queries h !! q with
  | Some obj => Ok obj
  | None => Fault (Dangling q)
  end.

Definition getattr_with_ctes (h : Store) (q : loc) : res loc :=
  (obj <- deref h q ;;
   match _with_ctes obj with
   | Some l => Ok l
   | None => Raise (AttributeError "_with_ctes")
   end)%res.

Definition list_read (h : Store) (l : loc) : res (list CTE) :=
  match lists h !! l with
  | Some cs => Ok cs
  | None => Fault (Dangling l)
  end.

(** [q._with_ctes], as the list it refers to holds at the moment. *)
Definition with_ctes (h : Store) (q : loc) : res (list CTE) :=
  (l <- getattr_with_ctes h q ;; list_read h l)%res.

Definition read {A} (f : Store → res A) : M A := λ h, (f h, h).

(** Writing the store. *)
Definition list_new (cs : list CTE) : M loc :=
  λ h, let l := fresh (dom (lists h)) in
       (Ok l, {| queries := queries h; lists := <[l := cs]> (lists h) |}).

Definition list_write (l : loc) (cs : list CTE) : M () :=
  λ h, match lists h !! l with
       | Some _ => (Ok (), {| queries := queries h; lists := <[l := cs]> (lists h) |})
       | None => (Fault (Dangling l), h)
       end.

(** [l.append(cte)] *)
Definition list_append (l : loc) (cte : CTE) : M () :=
  (cs <~ read (λ h, list_read h l) ;; list_write l (cs ++ [cte]))%M.

(** Any method that changes a list in place: [append], [extend], [pop],
    [clear], [l[i] = x], [del l[i]], ... *)
Definition list_mutate (f : list CTE → list CTE) (l : loc) : M () :=
  (cs <~ read (λ h, list_read h l) ;; list_write l (f cs))%M.

Definition object_new (obj : QueryObj) : M loc :=
  λ h, let q := fresh (dom (queries h)) in
       (Ok q, {| queries := <[q := obj]> (queries h); lists := lists h |}).

Definition object_write (q : loc) (obj : QueryObj) : M () :=
  λ h, match queries h !! q with
       | Some _ => (Ok (), {| queries := <[q := obj]> (queries h); lists := lists h |})
       | None => (Fault (Dangling q), h)
       end.

(** [q._with_ctes = l] *)
Definition setattr_with_ctes (q l : loc) : M () :=
  (obj <~ read (λ h, deref h q) ;;
   object_write q {| q_class := q_class obj; q_host := q_host obj;
                     _with_ctes := Some l |})%M.

Definition set_host (q : loc) (st : QState) : M () :=
  (obj <~ read (λ h, deref h q) ;;
   object_write q {| q_class := q_class obj; q_host := st;
                     _with_ctes := _with_ctes obj |})%M.

(** ** CTEQuery *)

(** Constructing an instance of a class of the shim: the host's
    initialisers run through [super().__init__], then
    [self._with_ctes = []].  The object enters the store when it is
    complete. *)
Definition __init__ (cls : Klass) (args : CallArgs) : M loc :=
  (st <~ lift (Query__init__ cls args) ;;
   l <~ list_new [] ;;
   object_new {| q_class := cls; q_host := st; _with_ctes := Some l |})%M.

(** [super(CTEQuery, self).combine(other, connector)] *)
Definition super_combine (self other : loc) (connector : Connector) : M () :=
  (s <~ read (λ h, deref h self) ;;
   o <~ read (λ h, deref h other) ;;
   let '(r, st) := Query_combine (q_host s) (q_host o) connector in
   (set_host self st ;;;
    lift r))%M.

(** [l[:]] *)
Definition list_copy (l : loc) : M loc :=
  (cs <~ read (λ h, list_read h l) ;; list_new cs)%M.

Definition combine (self other : loc) (connector : Connector) : M () :=
  (other_ctes <~ read (λ h, with_ctes h other) ;;
   (when (truthy_list other_ctes)
      (self_ctes <~ read (λ h, with_ctes h self) ;;
       (when (truthy_list self_ctes)
          (raise (TypeError "cannot merge queries with CTEs on both sides")) ;;;
        lo <~ read (λ h, getattr_with_ctes h other) ;;
        l <~ list_copy lo ;;
        setattr_with_ctes self l)) ;;;
    super_combine self other connector))%M.

(** [cls(...)]: for a class with [CTEQuery] among its bases the initialiser
    is the one above ([CTEUpdateQuery] and [CTEDeleteQuery] declare none of
    their own); an instance of a host class gets the host attributes only. *)
Definition construct (cls : Klass) (args : CallArgs) : M loc :=
  if is_CTEQuery cls then __init__ cls args
  else
    (st <~ lift (Query__init__ cls args) ;;
     object_new {| q_class := cls; q_host := st; _with_ctes := None |})%M.

(** The compiler objects: [klass(query, connection, using)]. *)
Record Compiler : Type := {
  compiler_class : CompilerKlass;
  compiler_query : loc;
  compiler_connection : option Connection;
  compiler_using : option string
}.

(** [for alias, aggregate in self.annotation_select.items():
       connection.ops.check_expression_support(aggregate)] *)
Fixpoint check_annotations (connection : option Connection)
    (l : list (string * Expression)) : res () :=
  match l with
  | [] => Ok ()
  | (alias, aggregate) :: rest =>
      match connection with
      | None => Raise (AttributeError "ops")
      | Some c =>
          (_ <- check_expression_support c aggregate ;;
           check_annotations connection rest)%res
      end
  end.

(** The body that [get_compiler] copies from the host, up to the final
    [return]: the connection the compiler gets. *)
Definition get_compiler_connection (obj : QueryObj) (using_ : option string)
    (connection : option Connection) : res (option Connection) :=
  match using_, connection with
  | None, None => Raise (ValueError "Need either using or connection")
  | _, _ =>
      (connection <-
         match using_ with
         | Some u =>
             if truthy_str u then (c <- connections u ;; Ok (Some c))
             else Ok connection
         | None => Ok connection
         end ;;
       _ <- check_annotations connection (annotation_select (q_host obj)) ;;
       Ok connection)%res
  end.

Definition get_compiler (h : Store) (self : loc) (using_ : option string)
    (connection : option Connection) : res Compiler :=
  (obj <- deref h self ;;
   connection <- get_compiler_connection obj using_ connection ;;
   let klass := dict_get COMPILER_TYPES (q_class obj) CTEQueryCompiler in
   Ok {| compiler_class := klass; compiler_query := self;
         compiler_connection := connection; compiler_using := using_ |})%res.

(** [get_compiler] on an object of a host class: the host's own method,
    which is no part of the shim. *)
Definition host_get_compiler (h : Store) (self : loc) (using_ : option string)
    (connection : option Connection) : res Compiler :=
  (obj <- deref h self ;;
   kc <- Query_get_compiler (q_class obj) (q_host obj) using_ connection ;;
   Ok {| compiler_class := kc.1; compiler_query := self;
         compiler_connection := kc.2; compiler_using := using_ |})%res.

(** [q.get_compiler(using, connection)] on whatever object [q] refers to. *)
Definition call_get_compiler (h : Store) (q : loc) (using_ : option string)
    (connection : option Connection) : res Compiler :=
  (obj <- deref h q ;;
   if is_CTEQuery (q_class obj) then get_compiler h q using_ connection
   else host_get_compiler h q using_ connection)%res.

(** [getattr(super(CTEQuery, self), _name)(klass, *args, **kwargs)]: a new
    object of class [klass] with the host attributes the host's copy gives
    it. *)
Definition super_copy (self : loc) (_name : string) (klass : Klass)
    (args : CallArgs) : M loc :=
  (s <~ read (λ h, deref h self) ;;
   st <~ lift (Query_copy _name (q_host s) klass args) ;;
   object_new {| q_class := klass; q_host := st;
                 _with_ctes := if Query_copy_keeps_dict _name
                               then _with_ctes s else None |})%M.

(** [QUERY_TYPES.get(klass, default)], where [klass] may be [None], which is
    no key of the table. *)
Definition QUERY_TYPES_get (klass : option Klass) (default : Klass) : Klass :=
  match klass with
  | Some k => dict_get QUERY_TYPES k default
  | None => default
  end.

Definition __chain (self : loc) (_name : string) (klass : option Klass)
    (args : CallArgs) : M loc :=
  (s <~ read (λ h, deref h self) ;;
   let klass := QUERY_TYPES_get klass (q_class s) in
   clone <~ super_copy self _name klass args ;;
   l <~ read (λ h, getattr_with_ctes h self) ;;
   l' <~ list_copy l ;;
   setattr_with_ctes clone l' ;;;
   ret clone)%M.

(** [v < w] on version tuples. *)
Definition version_lt (v w : nat * nat) : bool :=
  Nat.ltb v.1 w.1 || (Nat.eqb v.1 w.1 && Nat.ltb v.2 w.2).

(** The host's own [Query.clone], which a query of the shim inherits where
    the shim defines no [clone]: a copy of the class of [self]. *)
Definition Query_clone (self : loc) (args : CallArgs) : M loc :=
  (s <~ read (λ h, deref h self) ;;
   super_copy self "clone" (q_class s) args)%M.

(** [q.clone(klass, ...)]: the shim defines [clone] under
    [django.VERSION < (2, 0)] only; from 2.0 on the method is the host's,
    which takes no class, so that a call with one is refused. *)
Definition clone (self : loc) (klass : option Klass) (args : CallArgs) : M loc :=
  if version_lt django_VERSION (2, 0) then __chain self "clone" klass args
  else match klass with
       | None => Query_clone self args
       | Some _ =>
           raise (TypeError "clone() takes 1 positional argument but 2 were given")
       end.

(** [q.chain(klass)]: the shim defines [chain] from 2.0 on; before, neither
    the shim nor the host has such a method. *)
Definition chain (self : loc) (klass : option Klass) : M loc :=
  if version_lt django_VERSION (2, 0) then raise (AttributeError "chain")
  else __chain self "chain" klass no_args.

(** ** CTECompiler and the compilers *)

(** The two lines of the loop that compile the body of one CTE:
    [cte.query.get_compiler(connection=connection).as_sql()], where
    [compiler_as_sql] is what [as_sql] of the compiler that comes back
    does. *)
Definition compile_cte (compiler_as_sql : Compiler → res (string * pyseq Param))
    (h : Store) (connection : option Connection) (cte : CTE) :
    res (string * pyseq Param) :=
  (compiler <- call_get_compiler h (query cte) None connection ;;
   compiler_as_sql compiler)%res.

(** The [for] loop of [generate_sql], with its two accumulators. *)
Fixpoint generate_sql_loop (compiler_as_sql : Compiler → res (string * pyseq Param))
    (h : Store) (connection : option Connection) (todo : list CTE)
    (ctes : list string) (params : list Param) :
    res (list string * list Param) :=
  match todo with
  | [] => Ok (ctes, params)
  | cte :: rest =>
      (r <- compile_cte compiler_as_sql h connection cte ;;
       let '(cte_sql, cte_params) := r in
       clause <- format TEMPLATE [("name", name cte); ("query", cte_sql)] ;;
       generate_sql_loop compiler_as_sql h connection rest
         (ctes ++ [clause]) (params ++ items cte_params))%res
  end.

Definition generate_sql_with (compiler_as_sql : Compiler → res (string * pyseq Param))
    (h : Store) (connection : option Connection) (q : loc)
    (as_sql : () → res (string * pyseq Param)) : res (string * pyseq Param) :=
  (obj <- deref h q ;;
   if truthy_opt_str (combinator (q_host obj)) then as_sql ()
   else
     todo <- with_ctes h q ;;
     r <- generate_sql_loop compiler_as_sql h connection todo [] [] ;;
     let '(ctes, params) := r in
     let sql := if truthy_list ctes
                then ["WITH RECURSIVE"; join ", " ctes] else [] in
     b <- as_sql () ;;
     let '(base_sql, base_params) := b in
     Ok (join " " (sql ++ [base_sql]),
         PyTuple (params ++ items base_params)))%res.

(** [compiler.as_sql] with its arguments, by the class of the compiler: a
    compiler of the shim wraps [as_sql] of the host compiler it extends in
    [generate_sql], a host compiler is the host's.  Compiling a CTE body
    calls [as_sql] again on another compiler: the fuel bounds how deep. *)
Fixpoint as_sql (fuel : nat) (h : Store) (self : Compiler) (args : CallArgs) :
    res (string * pyseq Param) :=
  match fuel with
  | 0 => Fault OutOfFuel
  | S fuel' =>
      (obj <- deref h (compiler_query self) ;;
       match super_compiler (compiler_class self) with
       | Some base =>
           let _as_sql := λ _ : (),
             SQLCompiler_as_sql base (q_host obj) (compiler_connection self) args in
           generate_sql_with (λ c, as_sql fuel' h c no_args) h
             (compiler_connection self) (compiler_query self) _as_sql
       | None =>
           SQLCompiler_as_sql (compiler_class self) (q_host obj)
             (compiler_connection self) args
       end)%res
  end.

(** [CTECompiler.generate_sql(connection, query, as_sql)] *)
Definition generate_sql (fuel : nat) (h : Store) (connection : option Connection)
    (q : loc) (as_sql_callback : () → res (string * pyseq Param)) :
    res (string * pyseq Param) :=
  generate_sql_with (λ c, as_sql fuel h c no_args) h connection q as_sql_callback.

(** ** Predicates on stores *)

(** The query object at [q] holds, in [_with_ctes], the list object at [l],
    whose entries are [cs]. *)
Definition carries (h : Store) (q l : loc) (cs : list CTE) : Prop :=
  ∃ obj, queries h !! q = Some obj ∧ _with_ctes obj = Some l
         ∧ lists h !! l = Some cs.

(** No [_with_ctes] of the store dangles: the list a query object holds
    exists. *)
Definition wf (h : Store) : Prop :=
  map_Forall (λ _ obj, match _with_ctes obj with
                       | Some l => is_Some (lists h !! l)
                       | None => True
                       end) (queries h).

Global Instance wf_dec (h : Store) : Decision (wf h).
Proof.
  apply map_Forall_dec. intros q obj. destruct (_with_ctes obj); apply _.
Defined.

(** The host answers or raises: it is Python, it has no fuel to run out of. *)
Definition host_settles : Prop :=
  (∀ alias, connections alias ≠ Fault OutOfFuel)
  ∧ (∀ c e, check_expression_support c e ≠ Fault OutOfFuel)
  ∧ (∀ k st using_ c, Query_get_compiler k st using_ c ≠ Fault OutOfFuel)
  ∧ (∀ k st c args, SQLCompiler_as_sql k st c args ≠ Fault OutOfFuel).

(** CTE bodies nest less than [n] deep below the query at [q]. *)
Fixpoint bounded (h : Store) (n : nat) (q : loc) : Prop :=
  match n with
  | 0 => False
  | S n' => ∀ cs cte, with_ctes h q = Ok cs → cte ∈ cs → bounded h n' (query cte)
  end.

(** ** What the specification says *)

(** The fixed table of compiler classes, case by case. *)
Definition spec_compiler_class (k : Klass) : CompilerKlass :=
  match k with
  | CTEUpdateQuery => CTEUpdateQueryCompiler
  | CTEDeleteQuery => CTEDeleteQueryCompiler
  | _ => CTEQueryCompiler
  end.


(** One clause, [<name> AS (<body>)]. *)
Definition spec_clause (cte_name body : string) : string :=
  cte_name +:+ " AS (" +:+ body +:+ ")".

(** [WITH RECURSIVE <cte1>, <cte2>, ... <base_sql>] *)
Definition spec_with_recursive (clauses : list string) (base_sql : string) : string :=
  "WITH RECURSIVE " +:+ join ", " clauses +:+ " " +:+ base_sql.

End Shim.

Arguments QueryObj {_}.
Arguments CTE : clear implicits.
Arguments Store {_}.
Arguments Compiler {_}.

(** ** A small host to run the shim on *)

(** A host whose queries are a SQL text, its parameters and a combinator,
    whose compilers print the text as it is, and whose [combine] joins the
    two texts with the connector. *)
Record toy_query : Type := {
  toy_sql : string;
  toy_params : list nat;
  toy_combinator : option string
}.

Definition toy_combine (s o : toy_query) (connector : string) : res () * toy_query :=
  if decide (toy_combinator s = toy_combinator o) then
    (Ok (),
     {| toy_sql := toy_sql s +:+ " " +:+ connector +:+ " " +:+ toy_sql o;
        toy_params := toy_params s ++ toy_params o;
        toy_combinator := toy_combinator s |})
  else (Raise (TypeError "Cannot combine queries with different combinators."), s).

(** [get_compiler] of the small hosts: the connection of the alias, or the
    one that is passed, and the compiler the class of the query names. *)
Definition toy_get_compiler {QS : Type} (k : Klass) (_ : QS)
    (using_ : option string) (connection : option string) :
    res (CompilerKlass * option string) :=
  let klass := match k with
               | UpdateQuery => SQLUpdateCompiler
               | DeleteQuery => SQLDeleteCompiler
               | _ => SQLCompiler
               end in
  match using_, connection with
  | None, None => Raise (ValueError "Need either using or connection")
  | Some alias, _ =>
      if decide (alias = "default") then Ok (klass, Some "default")
      else Raise (HostError "ConnectionDoesNotExist")
  | None, Some c => Ok (klass, Some c)
  end.

Global Instance toy_host : HostORM := {|
  Param := nat;
  Connection := string;
  Expression := string;
  QState := toy_query;
  CallArgs := list nat;
  Connector := string;
  no_args := [];
  combinator := toy_combinator;
  annotation_select := λ _, [];
  connections := λ alias,
    if decide (alias = "default") then Ok "default"
    else Raise (HostError "ConnectionDoesNotExist");
  check_expression_support := λ _ _, Ok ();
  django_VERSION := (2, 2);
  Query_get_compiler := toy_get_compiler;
  Query__init__ := λ _ args,
    Ok {| toy_sql := "SELECT 1"; toy_params := args; toy_combinator := None |};
  Query_combine := toy_combine;
  Query_copy := λ _ st _ _, Ok st;
  Query_copy_keeps_dict := λ _, true;
  SQLCompiler_as_sql := λ _ st _ _, Ok (toy_sql st, PyTuple (toy_params st))
|}.

Definition toy_obj (cls : Klass) (sql : string) (ps : list nat)
    (c : option string) (l : option loc) : QueryObj :=
  {| q_class := cls;
     q_host := {| toy_sql := sql; toy_params := ps; toy_combinator := c |};
     _with_ctes := l |}.

(** Six query objects and five list objects: query 1 selects from two
    CTEs, [a] with the body at 2 (a query of the shim without CTEs) and [b]
    with the body at 3 (a query of the host); query 4 is a union that
    carries a CTE all the same; query 5 is an update with one CTE; query 6
    selects from a CTE whose body is query 1. *)
Definition toy_store : Store := {|
  queries := list_to_map [
    (1%positive, toy_obj CTEQuery "SELECT * FROM a, b" [7] None (Some 1%positive));
    (2%positive, toy_obj CTEQuery "SELECT x" [1; 2] None (Some 2%positive));
    (3%positive, toy_obj Query "SELECT y" [3] None None);
    (4%positive, toy_obj CTEQuery "SELECT 1 UNION SELECT 2" [] (Some "union")
                         (Some 4%positive));
    (5%positive, toy_obj CTEUpdateQuery "UPDATE t SET v = %s" [9] None
                         (Some 5%positive));
    (6%positive, toy_obj CTEQuery "SELECT * FROM n" [] None (Some 6%positive)) ];
  lists := list_to_map [
    (1%positive, [ {| name := "a"; query := 2%positive |};
                   {| name := "b"; query := 3%positive |} ]);
    (2%positive, []);
    (4%positive, [ {| name := "c"; query := 2%positive |} ]);
    (5%positive, [ {| name := "d"; query := 3%positive |} ]);
    (6%positive, [ {| name := "n"; query := 1%positive |} ]) ]
|}.

(** What the host compiler of query 1 answers. *)
Definition toy_callback (_ : ()) : res (string * pyseq nat) :=
  Ok ("SELECT * FROM a, b", PyTuple [7]).

(** ** from_query *)

(** Attributes of the host on a query object, by name: [getattr] of a name
    the object has not got is [None], and Python raises [AttributeError];
    what [setattr] stores, [getattr] gives back.  [init_kwargs] packs the
    two keyword arguments [model=..., where=...] of the constructor. *)
Class HostAttrs `{HostORM} : Type := {
  Value : Type;
  host_getattr : QState → string → option Value;
  host_setattr : QState → string → Value → QState;
  init_kwargs : Value → Value → CallArgs;
  host_getattr_setattr :
    ∀ st a v, host_getattr (host_setattr st a v) a = Some v;
  host_getattr_setattr_ne :
    ∀ st a b v, a ≠ b → host_getattr (host_setattr st a v) b = host_getattr st b
}.

(** The notations of the stateful operations, for what comes after the
    section that introduced them. *)
Declare Scope M_scope.
Delimit Scope M_scope with M.
Notation "x <~ m ;; k" := (bind m (λ x, k))
  (at level 100, m at next level, right associativity) : M_scope.
Notation "m ;;; k" := (bind m (λ _, k))
  (at level 100, right associativity) : M_scope.

Section FromQuery.
Context `{HostAttrs}.

(** [q.attr] *)
Definition getattr_host (h : Store) (q : loc) (attr : string) : res Value :=
  (obj <- deref h q ;;
   match host_getattr (q_host obj) attr with
   | Some v => Ok v
   | None => Raise (AttributeError attr)
   end)%res.

(** [q.attr = v] *)
Definition setattr_host (q : loc) (attr : string) (v : Value) : M () :=
  (obj <~ read (λ h, deref h q) ;;
   set_host q (host_setattr (q_host obj) attr v))%M.

(** The attributes that [from_query] assigns, [new.attr = other.attr], in
    the order of the assignments. *)
Definition from_query_attrs : list string :=
  [ "model"; "alias_refcount"; "alias_map"; "external_aliases"; "table_map";
    "default_cols"; "default_ordering"; "standard_ordering"; "used_aliases";
    "filter_is_sticky";
    "select"; "tables"; "where";
    "where_class"; "group_by"; "order_by"; "low_mark"; "high_mark";
    "distinct"; "distinct_fields"; "select_for_update";
    "select_for_update_nowait";
    "select_related"; "max_depth";
    "values_select";
    "_annotations"; "annotation_select_mask"; "_annotation_select_cache";
    "_extra"; "extra_select_mask"; "_extra_select_cache";
    "extra_tables"; "extra_order_by";
    "deferred_loading";
    "context" ].

(** The host attributes of [new] after the assignments [new.attr =
    other.attr] for the names of [attrs] that [other] has. *)
Definition copy_host (other : QState) (attrs : list string) (new : QState) : QState :=
  foldl (λ st attr, match host_getattr other attr with
                    | Some v => host_setattr st attr v
                    | None => st
                    end) new attrs.

(** The assignments, one after the other. *)
Fixpoint copy_attrs (new other : loc) (attrs : list string) : M () :=
  match attrs with
  | [] => ret ()
  | attr :: rest =>
      (v <~ read (λ h, getattr_host h other attr) ;;
       setattr_host new attr v ;;;
       copy_attrs new other rest)%M
  end.

Definition from_query (cls : Klass) (other : loc) : M loc :=
  (model <~ read (λ h, getattr_host h other "model") ;;
   where_class <~ read (λ h, getattr_host h other "where_class") ;;
   new <~ construct cls (init_kwargs model where_class) ;;
   copy_attrs new other from_query_attrs ;;;
   ret new)%M.

End FromQuery.

(** ** Stores that grow *)

(** Every object and every list of [h] is in [h'] as it is in [h]. *)
Definition extends `{HostORM} (h h' : Store) : Prop :=
  queries h ⊆ queries h' ∧ lists h ⊆ lists h'.

(** An answer that is no dangling reference. *)
Definition no_dangling {A} (r : res A) : Prop :=
  ∀ l, r ≠ Fault (Dangling l).

(** ** A host with attributes by name *)

(** A host whose query objects are dictionaries from attribute names to
    texts, kept as their items with the latest assignment first; the SQL of
    a query is its attribute [sql], an annotation is its attribute
    [annotation], and the one expression no connection supports is
    [unsupported]. *)
Definition attr_host : HostORM := {|
  Param := nat;
  Connection := string;
  Expression := string;
  QState := list (string * string);
  CallArgs := list (string * string);
  Connector := string;
  no_args := [];
  combinator := λ st, dict_lookup st "combinator";
  annotation_select := λ st,
    match dict_lookup st "annotation" with
    | Some e => [("total", e)]
    | None => []
    end;
  connections := λ alias,
    if decide (alias = "default") then Ok "default"
    else Raise (HostError "ConnectionDoesNotExist");
  check_expression_support := λ _ e,
    if decide (e = "unsupported") then Raise (HostError "NotSupportedError")
    else Ok ();
  django_VERSION := (1, 11);
  Query_get_compiler := toy_get_compiler;
  Query__init__ := λ _ kwargs, Ok kwargs;
  Query_combine := λ s _ _, (Ok (), s);
  Query_copy := λ _ st _ _, Ok st;
  Query_copy_keeps_dict := λ _, false;
  SQLCompiler_as_sql := λ _ st _ _,
    Ok (default "" (dict_lookup st "sql"), PyTuple [])
|}.

Definition attr_attrs : @HostAttrs attr_host.
Proof.
  refine (@Build_HostAttrs attr_host string
            (λ st a, dict_lookup (st : list (string * string)) a)
            (λ st a v, (a, v) :: (st : list (string * string)))
            (λ model where_class, [("model", model); ("where", where_class)])
            _ _).
  - intros st a v. cbn. by rewrite decide_True.
  - intros st a b v Hne. cbn. by rewrite decide_False.
Defined.

Definition attr_obj (cls : Klass) (attrs : list (string * string))
    (l : option loc) : @QueryObj attr_host :=
  @Build_QueryObj attr_host cls attrs l.

(** Query 1 has every attribute that [from_query] reads (each holds its own
    name, but for [model]) and two CTEs, [first] with the body at 3 and
    [tree] with the body at 2; query 2 has an annotation that no connection
    supports, and no [model]; query 3 is a plain select; query 4 selects
    from one CTE. *)
Definition attr_store : @Store attr_host :=
  @Build_Store attr_host
    (list_to_map [
       (1%positive,
        attr_obj CTEQuery
          (("model", "Node") :: ("sql", "SELECT * FROM first, tree")
             :: ((λ a, (a, a)) <$> from_query_attrs))
          (Some 1%positive));
       (2%positive,
        attr_obj CTEQuery [("sql", "SELECT 2"); ("annotation", "unsupported")]
          (Some 2%positive));
       (3%positive, attr_obj CTEQuery [("sql", "SELECT 3")] (Some 3%positive));
       (4%positive,
        attr_obj CTEQuery [("sql", "SELECT * FROM other")] (Some 4%positive)) ])
    (list_to_map [
       (1%positive, [ {| name := "first"; query := 3%positive |};
                      {| name := "tree"; query := 2%positive |} ]);
       (2%positive, []);
       (3%positive, []);
       (4%positive, [ {| name := "other"; query := 3%positive |} ]) ]).

(** * Properties *)

Section Properties.
Context `{HostORM}.

(** ** Running the primitives *)

Lemma fresh_list (h : Store) : lists h !! fresh (dom (lists h)) = None.
Proof. apply not_elem_of_dom, is_fresh. Qed.

Lemma fresh_query (h : Store) : queries h !! fresh (dom (queries h)) = None.
Proof. apply not_elem_of_dom, is_fresh. Qed.

Lemma fresh_list_ne (h : Store) l cs :
  lists h !! l = Some cs → fresh (dom (lists h)) ≠ l.
Proof. intros Hl Heq. pose proof (fresh_list h) as Hf. rewrite Heq in Hf. congruence. Qed.

Lemma fresh_query_ne (h : Store) q obj :
  queries h !! q = Some obj → fresh (dom (queries h)) ≠ q.
Proof. intros Hq Heq. pose proof (fresh_query h) as Hf. rewrite Heq in Hf. congruence. Qed.

Lemma deref_Some (h : Store) q obj : queries h !! q = Some obj → deref h q = Ok obj.
Proof. intros Hq. unfold deref. by rewrite Hq. Qed.

Lemma getattr_with_ctes_Some (h : Store) q obj l :
  queries h !! q = Some obj → _with_ctes obj = Some l →
  getattr_with_ctes h q = Ok l.
Proof.
  intros Hq Hl. unfold getattr_with_ctes, deref. rewrite Hq. cbn. by rewrite Hl.
Qed.

Lemma with_ctes_carries (h : Store) q l cs :
  carries h q l cs → with_ctes h q = Ok cs.
Proof.
  intros (obj & Hq & Hl & Hcs).
  unfold with_ctes, getattr_with_ctes, deref, list_read.
  rewrite Hq. cbn. rewrite Hl. cbn. by rewrite Hcs.
Qed.

Lemma bind_read {A B} (f : Store → res A) (k : A → M B) (h : Store) a :
  f h = Ok a → bind (read f) k h = k a h.
Proof. intros Hf. unfold bind, read. by rewrite Hf. Qed.

Lemma bind_lift {A B} (r : res A) (k : A → M B) (h : Store) a :
  r = Ok a → bind (lift r) k h = k a h.
Proof. by intros ->. Qed.

Lemma bind_Ok {A B} (m : M A) (k : A → M B) (h h' : Store) a :
  m h = (Ok a, h') → bind m k h = k a h'.
Proof. intros Hm. unfold bind. by rewrite Hm. Qed.

Lemma bind_Raise {A B} (m : M A) (k : A → M B) (h h' : Store) e :
  m h = (Raise e, h') → bind m k h = (Raise e, h').
Proof. intros Hm. unfold bind. by rewrite Hm. Qed.

Lemma list_new_run (h : Store) cs :
  list_new cs h
  = (Ok (fresh (dom (lists h))),
     {| queries := queries h; lists := <[fresh (dom (lists h)) := cs]> (lists h) |}).
Proof. done. Qed.

Lemma list_copy_run (h : Store) l cs :
  lists h !! l = Some cs →
  list_copy l h
  = (Ok (fresh (dom (lists h))),
     {| queries := queries h; lists := <[fresh (dom (lists h)) := cs]> (lists h) |}).
Proof.
  intros Hl. unfold list_copy.
  rewrite (bind_read _ _ _ cs) by (unfold list_read; by rewrite Hl).
  apply list_new_run.
Qed.

Lemma object_new_run (h : Store) obj :
  object_new obj h
  = (Ok (fresh (dom (queries h))),
     {| queries := <[fresh (dom (queries h)) := obj]> (queries h); lists := lists h |}).
Proof. done. Qed.

Lemma list_mutate_run (h : Store) f l cs :
  lists h !! l = Some cs →
  list_mutate f l h
  = (Ok (), {| queries := queries h; lists := <[l := f cs]> (lists h) |}).
Proof.
  intros Hl. unfold list_mutate.
  rewrite (bind_read _ _ _ cs) by (unfold list_read; by rewrite Hl).
  unfold list_write. by rewrite Hl.
Qed.

Lemma list_append_mutate (h : Store) l cte :
  list_append l cte h = list_mutate (λ cs, cs ++ [cte]) l h.
Proof. done. Qed.

Lemma set_host_run (h : Store) q obj st :
  queries h !! q = Some obj →
  set_host q st h
  = (Ok (), {| queries := <[q := {| q_class := q_class obj; q_host := st;
                                   _with_ctes := _with_ctes obj |}]> (queries h);
              lists := lists h |}).
Proof.
  intros Hq. unfold set_host.
  rewrite (bind_read _ _ _ obj) by by apply deref_Some.
  unfold object_write. by rewrite Hq.
Qed.

Lemma setattr_with_ctes_run (h : Store) q obj l :
  queries h !! q = Some obj →
  setattr_with_ctes q l h
  = (Ok (), {| queries := <[q := {| q_class := q_class obj; q_host := q_host obj;
                                   _with_ctes := Some l |}]> (queries h);
              lists := lists h |}).
Proof.
  intros Hq. unfold setattr_with_ctes.
  rewrite (bind_read _ _ _ obj) by by apply deref_Some.
  unfold object_write. by rewrite Hq.
Qed.

(** ** The store invariant *)

Lemma wf_alt (h : Store) :
  wf h ↔ ∀ q obj l, queries h !! q = Some obj → _with_ctes obj = Some l →
                    is_Some (lists h !! l).
Proof.
  unfold wf. rewrite map_Forall_lookup. split.
  - intros Hall q obj l Hq Hl. specialize (Hall q obj Hq). by rewrite Hl in Hall.
  - intros Hall q obj Hq. destruct (_with_ctes obj) as [l|] eqn:Hl; eauto.
Qed.

Lemma wf_insert_list (h : Store) l cs :
  wf h → wf {| queries := queries h; lists := <[l := cs]> (lists h) |}.
Proof.
  rewrite !wf_alt. intros Hwf q obj l0 Hq Hl0. cbn [queries lists] in *.
  destruct (decide (l = l0)) as [->|Hne].
  - rewrite lookup_insert_eq. by eexists.
  - rewrite lookup_insert_ne by done. eauto.
Qed.

Lemma wf_insert_query (h : Store) q obj :
  wf h → (∀ l, _with_ctes obj = Some l → is_Some (lists h !! l)) →
  wf {| queries := <[q := obj]> (queries h); lists := lists h |}.
Proof.
  rewrite !wf_alt. intros Hwf Hobj q0 obj0 l0. cbn [queries lists].
  destruct (decide (q = q0)) as [->|Hne].
  - rewrite lookup_insert_eq. intros [= <-]. apply Hobj.
  - rewrite lookup_insert_ne by done. apply Hwf.
Qed.

Lemma wf_insert_both (h : Store) q k st l cs :
  wf h →
  wf {| queries := <[q := {| q_class := k; q_host := st; _with_ctes := Some l |}]>
                     (queries h);
        lists := <[l := cs]> (lists h) |}.
Proof.
  rewrite !wf_alt. intros Hwf q0 obj0 l0. cbn [queries lists].
  destruct (decide (q = q0)) as [->|Hne].
  - rewrite lookup_insert_eq. intros [= <-] [= <-].
    rewrite lookup_insert_eq. by eexists.
  - rewrite lookup_insert_ne by done. intros Hq0 Hl0.
    destruct (Hwf _ _ _ Hq0 Hl0) as [cs0 Hcs0].
    destruct (decide (l = l0)) as [->|Hne'].
    + rewrite lookup_insert_eq. by eexists.
    + rewrite lookup_insert_ne by done. by eexists.
Qed.

Lemma list_mutate_wf (h : Store) f l : wf h → wf (list_mutate f l h).2.
Proof.
  intros Hwf. unfold list_mutate, bind, read, list_read, list_write.
  destruct (lists h !! l) as [cs|] eqn:Hl; cbn; rewrite ?Hl; [|done].
  by apply wf_insert_list.
Qed.

(** ** combine, case by case *)

Lemma super_combine_run (h : Store) self other s o connector :
  queries h !! self = Some s → queries h !! other = Some o →
  super_combine self other connector h
  = ((Query_combine (q_host s) (q_host o) connector).1,
     {| queries := <[self := {| q_class := q_class s;
                               q_host := (Query_combine (q_host s) (q_host o) connector).2;
                               _with_ctes := _with_ctes s |}]> (queries h);
        lists := lists h |}).
Proof.
  intros Hs Ho. unfold super_combine.
  rewrite (bind_read _ _ _ s) by by apply deref_Some.
  rewrite (bind_read _ _ _ o) by by apply deref_Some.
  destruct (Query_combine _ _ _) as [r st]. cbn [fst snd].
  erewrite bind_Ok by by apply set_host_run.
  done.
Qed.

Lemma combine_run_both (h : Store) self other ls lo cs co connector :
  carries h self ls cs → carries h other lo co →
  cs ≠ [] → co ≠ [] →
  combine self other connector h
  = (Raise (TypeError "cannot merge queries with CTEs on both sides"), h).
Proof.
  intros Hs Ho Hcs Hco. unfold combine.
  rewrite (bind_read _ _ _ co) by eauto using with_ctes_carries.
  destruct co as [|cte co]; [done|]. cbn [truthy_list when].
  erewrite bind_Raise; [done|].
  rewrite (bind_read _ _ _ cs) by eauto using with_ctes_carries.
  destruct cs as [|cte' cs]; [done|]. cbn [truthy_list when].
  by erewrite bind_Raise.
Qed.

Lemma combine_run_keep (h : Store) self other s o lo connector :
  queries h !! self = Some s → queries h !! other = Some o →
  _with_ctes o = Some lo → lists h !! lo = Some [] →
  combine self other connector h
  = ((Query_combine (q_host s) (q_host o) connector).1,
     {| queries := <[self := {| q_class := q_class s;
                               q_host := (Query_combine (q_host s) (q_host o) connector).2;
                               _with_ctes := _with_ctes s |}]> (queries h);
        lists := lists h |}).
Proof.
  intros Hs Ho Hlo Hco. unfold combine.
  rewrite (bind_read _ _ _ []) by (apply (with_ctes_carries _ _ lo); by exists o).
  cbn [truthy_list when].
  erewrite bind_Ok by done.
  by apply super_combine_run.
Qed.

Lemma combine_run_adopt (h : Store) self other s o ls lo co connector :
  queries h !! self = Some s → _with_ctes s = Some ls → lists h !! ls = Some [] →
  queries h !! other = Some o → _with_ctes o = Some lo → lists h !! lo = Some co →
  co ≠ [] →
  combine self other connector h
  = ((Query_combine (q_host s) (q_host o) connector).1,
     {| queries := <[self := {| q_class := q_class s;
                               q_host := (Query_combine (q_host s) (q_host o) connector).2;
                               _with_ctes := Some (fresh (dom (lists h))) |}]> (queries h);
        lists := <[fresh (dom (lists h)) := co]> (lists h) |}).
Proof.
  intros Hs Hls Hcs Ho Hlo Hco Hne. unfold combine.
  rewrite (bind_read _ _ _ co) by (apply (with_ctes_carries _ _ lo); by exists o).
  destruct co as [|cte co]; [done|]. cbn [truthy_list when].
  assert (self ≠ other) as Hso by (intros ->; naive_solver).
  erewrite bind_Ok; last first.
  { rewrite (bind_read _ _ _ []) by (apply (with_ctes_carries _ _ ls); by exists s).
    cbn [truthy_list when].
    rewrite (bind_Ok _ _ h h ()) by done.
    rewrite (bind_read _ _ _ lo) by by apply (getattr_with_ctes_Some _ _ o).
    erewrite bind_Ok by by apply list_copy_run.
    by apply setattr_with_ctes_run. }
  rewrite (super_combine_run _ self other
             {| q_class := q_class s; q_host := q_host s;
                _with_ctes := Some (fresh (dom (lists h))) |} o);
    cbn [queries lists q_class q_host _with_ctes].
  - by rewrite insert_insert_eq.
  - by rewrite lookup_insert_eq.
  - by rewrite lookup_insert_ne.
Qed.

Lemma combine_wf (h : Store) self other connector :
  wf h → wf (combine self other connector h).2.
Proof.
  intros Hwf. pose proof (proj1 (wf_alt h) Hwf) as Hwf'.
  destruct (queries h !! other) as [o|] eqn:Ho; last first.
  { unfold combine, bind, read, with_ctes, getattr_with_ctes, deref. by rewrite Ho. }
  destruct (_with_ctes o) as [lo|] eqn:Hlo; last first.
  { unfold combine, bind, read, with_ctes, getattr_with_ctes, deref.
    rewrite Ho. cbn. by rewrite Hlo. }
  destruct (Hwf' _ _ _ Ho Hlo) as [co Hco].
  destruct (queries h !! self) as [s|] eqn:Hs; last first.
  { unfold combine. rewrite (bind_read _ _ _ co)
      by (apply (with_ctes_carries _ _ lo); by exists o).
    destruct co; cbn [truthy_list when].
    - rewrite (bind_Ok _ _ h h ()) by done.
      unfold super_combine, bind, read, deref. by rewrite Hs.
    - unfold bind, read, with_ctes, getattr_with_ctes, deref. by rewrite Hs. }
  destruct (decide (co = [])) as [->|Hne].
  { rewrite (combine_run_keep h self other s o lo) by done. cbn [snd].
    apply wf_insert_query; [done|]. cbn [_with_ctes]. eauto. }
  destruct (_with_ctes s) as [ls|] eqn:Hls; last first.
  { unfold combine. rewrite (bind_read _ _ _ co)
      by (apply (with_ctes_carries _ _ lo); by exists o).
    destruct co; [done|]. cbn [truthy_list when].
    unfold bind, read, with_ctes, getattr_with_ctes, deref. rewrite Hs. cbn.
    by rewrite Hls. }
  destruct (Hwf' _ _ _ Hs Hls) as [cs Hcs].
  destruct (decide (cs = [])) as [->|Hne'].
  - rewrite (combine_run_adopt h self other s o ls lo co) by done. cbn [snd].
    by apply wf_insert_both.
  - rewrite (combine_run_both h self other ls lo cs co); [done|by eexists..|done|done].
Qed.

(** ** __chain and construct *)

Lemma __chain_run (h : Store) self obj ls cs _name klass args st :
  queries h !! self = Some obj → _with_ctes obj = Some ls → lists h !! ls = Some cs →
  Query_copy _name (q_host obj) (QUERY_TYPES_get klass (q_class obj)) args = Ok st →
  __chain self _name klass args h
  = (Ok (fresh (dom (queries h))),
     {| queries := <[fresh (dom (queries h)) :=
                       {| q_class := QUERY_TYPES_get klass (q_class obj);
                          q_host := st;
                          _with_ctes := Some (fresh (dom (lists h))) |}]> (queries h);
        lists := <[fresh (dom (lists h)) := cs]> (lists h) |}).
Proof.
  intros Hself Hls Hcs Hcopy.
  pose proof (deref_Some _ _ _ Hself) as Hderef.
  pose proof (fresh_query_ne _ _ _ Hself) as Hfresh.
  unfold __chain.
  rewrite (bind_read _ _ _ obj) by done. cbn zeta.
  erewrite bind_Ok; last first.
  { unfold super_copy. rewrite (bind_read _ _ _ obj) by done.
    rewrite (bind_lift _ _ _ st) by done. apply object_new_run. }
  rewrite (bind_read _ _ _ ls); last first.
  { apply (getattr_with_ctes_Some _ _ obj); [|done]. cbn [queries].
    by rewrite lookup_insert_ne. }
  erewrite bind_Ok by by apply list_copy_run.
  erewrite bind_Ok; last first.
  { apply setattr_with_ctes_run. cbn [queries]. by rewrite lookup_insert_eq. }
  cbn [queries lists q_class q_host]. unfold ret. by rewrite insert_insert_eq.
Qed.

Lemma __chain_Raise (h : Store) self obj _name klass args e :
  queries h !! self = Some obj →
  (__chain self _name klass args h).1 = Raise e →
  Query_copy _name (q_host obj) (QUERY_TYPES_get klass (q_class obj)) args = Raise e
  ∨ (_with_ctes obj = None ∧ e = AttributeError "_with_ctes").
Proof.
  intros Hself.
  pose proof (deref_Some _ _ _ Hself) as Hderef.
  pose proof (fresh_query_ne _ _ _ Hself) as Hfresh.
  unfold __chain. rewrite (bind_read _ _ _ obj) by done. cbn zeta.
  unfold super_copy at 1. unfold bind at 1. rewrite (bind_read _ _ _ obj) by done.
  destruct (Query_copy _ _ _ _) as [st|e'|fl] eqn:Hcopy.
  - rewrite (bind_lift _ _ _ st) by done. rewrite object_new_run.
    unfold bind at 1, read at 1, getattr_with_ctes, deref. cbn [queries].
    rewrite lookup_insert_ne by done. rewrite Hself. cbn [res_bind].
    destruct (_with_ctes obj) as [ls|] eqn:Hls; [|cbn; intros [= <-]; by right].
    unfold bind at 1, list_copy, bind at 1, read at 1, list_read. cbn [lists].
    destruct (lists h !! ls) as [cs|]; [|done].
    rewrite list_new_run.
    erewrite bind_Ok; [done|].
    apply setattr_with_ctes_run. cbn [queries]. by rewrite lookup_insert_eq.
  - cbn. intros [= <-]. by left.
  - done.
Qed.

Lemma __chain_wf (h : Store) self obj ls cs _name klass args st :
  queries h !! self = Some obj → _with_ctes obj = Some ls → lists h !! ls = Some cs →
  Query_copy _name (q_host obj) (QUERY_TYPES_get klass (q_class obj)) args = Ok st →
  wf h → wf (__chain self _name klass args h).2.
Proof.
  intros Hself Hls Hcs Hcopy Hwf.
  rewrite (__chain_run h self obj ls cs _ _ _ st) by done. cbn [snd].
  by apply wf_insert_both.
Qed.

Lemma construct_run (h : Store) cls args st :
  is_CTEQuery cls = true → Query__init__ cls args = Ok st →
  construct cls args h
  = (Ok (fresh (dom (queries h))),
     {| queries := <[fresh (dom (queries h)) :=
                       {| q_class := cls; q_host := st;
                          _with_ctes := Some (fresh (dom (lists h))) |}]> (queries h);
        lists := <[fresh (dom (lists h)) := []]> (lists h) |}).
Proof.
  intros Hcls Hinit. unfold construct. rewrite Hcls. unfold __init__.
  rewrite (bind_lift _ _ _ st) by done.
  erewrite bind_Ok by apply list_new_run.
  apply object_new_run.
Qed.

Lemma construct_Raise (h : Store) cls args e :
  (construct cls args h).1 = Raise e → Query__init__ cls args = Raise e.
Proof.
  unfold construct, __init__.
  destruct (is_CTEQuery cls); unfold bind at 1, lift;
    destruct (Query__init__ cls args) as [st|e'|fl]; cbn; congruence.
Qed.

(** ** get_compiler *)

Lemma COMPILER_TYPES_get (k : Klass) :
  dict_get COMPILER_TYPES k CTEQueryCompiler = spec_compiler_class k.
Proof. by destruct k. Qed.

Lemma get_compiler_Ok (h : Store) self using_ connection c :
  get_compiler h self using_ connection = Ok c →
  ∃ obj, queries h !! self = Some obj
         ∧ get_compiler_connection obj using_ connection = Ok (compiler_connection c).
Proof.
  unfold get_compiler, deref.
  destruct (queries h !! self) as [obj|]; [|done]. cbn [res_bind].
  destruct (get_compiler_connection obj using_ connection) as [conn| |] eqn:Hconn;
    [|done..].
  cbn. intros [= <-]. by exists obj.
Qed.

Lemma check_annotations_Raise connection (l : list (string * Expression)) e :
  check_annotations connection l = Raise e →
  (connection = None ∧ l ≠ [] ∧ e = AttributeError "ops")
  ∨ ∃ c ae, connection = Some c ∧ ae ∈ l
            ∧ check_expression_support c ae.2 = Raise e.
Proof.
  induction l as [|[alias aggregate] l IH]; [done|].
  cbn [check_annotations]. destruct connection as [c|]; last first.
  { intros [= <-]. by left. }
  destruct (check_expression_support c aggregate) as [[]|e'|f] eqn:Hcheck.
  - cbn [res_bind]. intros [[? [? ?]]|(c' & ae & Hc' & Hin & Hae)]%IH; [done|].
    right. exists c', ae. split; [done|]. split; [by right|done].
  - cbn. intros [= <-]. right. exists c, (alias, aggregate).
    split; [done|]. split; [by left|done].
  - done.
Qed.

(** What [get_compiler] raises: the [ValueError] of its first check, the
    [AttributeError] of [connection.ops] on no connection, or what looking
    up the alias or checking an annotation raised. *)
Lemma get_compiler_Raise (h : Store) self obj using_ connection e :
  queries h !! self = Some obj →
  get_compiler h self using_ connection = Raise e →
  (using_ = None ∧ connection = None
   ∧ e = ValueError "Need either using or connection")
  ∨ (annotation_select (q_host obj) ≠ [] ∧ e = AttributeError "ops")
  ∨ (∃ alias, using_ = Some alias ∧ truthy_str alias = true
              ∧ connections alias = Raise e)
  ∨ (∃ c ae, ae ∈ annotation_select (q_host obj)
             ∧ check_expression_support c ae.2 = Raise e).
Proof.
  intros Hq. unfold get_compiler, deref. rewrite Hq. cbn [res_bind].
  assert (∀ conn : option Connection,
            (connection0 <-
               (_ <- check_annotations conn (annotation_select (q_host obj)) ;;
                Ok conn) ;;
             Ok {| compiler_class := dict_get COMPILER_TYPES (q_class obj)
                                       CTEQueryCompiler;
                   compiler_query := self;
                   compiler_connection := connection0;
                   compiler_using := using_ |})%res = Raise e →
            (annotation_select (q_host obj) ≠ [] ∧ e = AttributeError "ops")
            ∨ ∃ c ae, ae ∈ annotation_select (q_host obj)
                      ∧ check_expression_support c ae.2 = Raise e) as Hcheck.
  { intros conn.
    destruct (check_annotations conn (annotation_select (q_host obj)))
      as [[]|e'|f] eqn:Hc; [done| |done].
    cbn. intros [= <-].
    apply check_annotations_Raise in Hc as [(_ & ? & ?)|(c & ae & _ & ? & ?)];
      [by left|right; by exists c, ae]. }
  unfold get_compiler_connection.
  destruct using_ as [alias|], connection as [c|]; cbn [res_bind].
  - destruct (truthy_str alias) eqn:Halias; cbn [res_bind].
    + destruct (connections alias) as [c'|e'|f] eqn:Hconn; cbn [res_bind].
      * intros [?|?]%Hcheck; auto.
      * intros [= <-]. right. right. left. by exists alias.
      * done.
    + intros [?|?]%Hcheck; auto.
  - destruct (truthy_str alias) eqn:Halias; cbn [res_bind].
    + destruct (connections alias) as [c'|e'|f] eqn:Hconn; cbn [res_bind].
      * intros [?|?]%Hcheck; auto.
      * intros [= <-]. right. right. left. by exists alias.
      * done.
    + intros [?|?]%Hcheck; auto.
  - intros [?|?]%Hcheck; auto.
  - intros [= <-]. by left.
Qed.

(** ** generate_sql *)

Lemma TEMPLATE_format (n q : string) :
  format TEMPLATE [("name", n); ("query", q)] = Ok (spec_clause n q).
Proof. reflexivity. Qed.

Lemma generate_sql_loop_spec compiler_as_sql (h : Store) connection
    (todo : list CTE) (rs : list (string * pyseq Param)) ctes params :
  Forall2 (λ cte r, compile_cte compiler_as_sql h connection cte = Ok r) todo rs →
  generate_sql_loop compiler_as_sql h connection todo ctes params
  = Ok (ctes ++ zip_with spec_clause (name <$> todo) (fst <$> rs),
        params ++ concat ((items ∘ snd) <$> rs)).
Proof.
  intros Hall. revert ctes params.
  induction Hall as [|cte [cte_sql cte_params] todo rs Hcte _ IH]; intros ctes params.
  - simpl. by rewrite !app_nil_r.
  - cbn [generate_sql_loop]. rewrite Hcte. cbn [res_bind].
    rewrite TEMPLATE_format. cbn [res_bind]. rewrite IH.
    cbn. by rewrite <- !app_assoc.
Qed.

Lemma generate_sql_loop_Raise (f : Compiler → res (string * pyseq Param))
    (h : Store) connection todo ctes params e :
  generate_sql_loop f h connection todo ctes params = Raise e →
  ∃ cte, cte ∈ todo ∧ compile_cte f h connection cte = Raise e.
Proof.
  revert ctes params. induction todo as [|cte todo IH]; intros ctes params; [done|].
  cbn [generate_sql_loop].
  destruct (compile_cte f h connection cte) as [[cte_sql cte_params]|e'|fl] eqn:Hcte.
  - cbn [res_bind]. rewrite TEMPLATE_format. cbn [res_bind].
    intros (cte' & Hin & Hcte')%IH. exists cte'. split; [by right|done].
  - cbn. intros [= <-]. exists cte. split; [by left|done].
  - done.
Qed.

Lemma generate_sql_Raise fuel (h : Store) connection q todo cb e :
  with_ctes h q = Ok todo →
  generate_sql fuel h connection q cb = Raise e →
  cb () = Raise e
  ∨ ∃ cte, cte ∈ todo
           ∧ compile_cte (λ c, as_sql fuel h c no_args) h connection cte = Raise e.
Proof.
  intros Htodo. unfold generate_sql, generate_sql_with.
  destruct (deref h q) as [obj| |] eqn:Hobj;
    [|unfold with_ctes, getattr_with_ctes in Htodo; by rewrite Hobj in Htodo..].
  cbn [res_bind].
  destruct (truthy_opt_str _); [intros ?; by left|].
  rewrite Htodo. cbn [res_bind].
  destruct (generate_sql_loop _ h connection todo [] []) as [[ctes params]|e'|fl] eqn:Hloop.
  - cbn [res_bind]. destruct (cb ()) as [[base_sql base_params]|e'|fl]; [done| |done].
    cbn. intros [= <-]. by left.
  - cbn. intros [= <-]. right. by eapply generate_sql_loop_Raise.
  - done.
Qed.

(** Fuel beyond the nesting of the bodies is enough. *)
Lemma check_annotations_settles connection l :
  host_settles → check_annotations connection l ≠ Fault OutOfFuel.
Proof.
  intros (_ & Hcheck & _). induction l as [|[alias aggregate] l IH]; [done|].
  cbn [check_annotations]. destruct connection as [c|]; [|done].
  specialize (Hcheck c aggregate).
  destruct (check_expression_support c aggregate) as [[]|e|[]]; done.
Qed.

Lemma get_compiler_connection_settles obj using_ connection :
  host_settles → get_compiler_connection obj using_ connection ≠ Fault OutOfFuel.
Proof.
  intros Hhost. pose proof Hhost as (Hconn & _).
  assert (∀ c, (_ <- check_annotations c (annotation_select (q_host obj)) ;; Ok c)%res
               ≠ Fault OutOfFuel) as Hcheck.
  { intros c. pose proof (check_annotations_settles c (annotation_select (q_host obj)) Hhost).
    destruct (check_annotations _ _) as [[]|e|[]]; done. }
  unfold get_compiler_connection.
  destruct using_ as [u|], connection as [c|]; try done; cbn [res_bind];
    try apply Hcheck.
  - destruct (truthy_str u); cbn [res_bind]; [|apply Hcheck].
    specialize (Hconn u). destruct (connections u) as [c'|e|[]]; cbn [res_bind];
      [apply Hcheck|done..].
  - destruct (truthy_str u); cbn [res_bind]; [|apply Hcheck].
    specialize (Hconn u). destruct (connections u) as [c'|e|[]]; cbn [res_bind];
      [apply Hcheck|done..].
Qed.

Lemma call_get_compiler_settles (h : Store) q using_ connection :
  host_settles → call_get_compiler h q using_ connection ≠ Fault OutOfFuel.
Proof.
  intros Hhost. pose proof Hhost as (_ & _ & Hget & _).
  unfold call_get_compiler, get_compiler, host_get_compiler, deref.
  destruct (queries h !! q) as [obj|]; [|done]. cbn [res_bind].
  pose proof (get_compiler_connection_settles obj using_ connection Hhost).
  destruct (is_CTEQuery (q_class obj)).
  - by destruct (get_compiler_connection obj using_ connection) as [conn|e|[]].
  - specialize (Hget (q_class obj) (q_host obj) using_ connection).
    by destruct (Query_get_compiler _ _ _ _) as [kc|e|[]].
Qed.

Lemma call_get_compiler_query (h : Store) q using_ connection c :
  call_get_compiler h q using_ connection = Ok c → compiler_query c = q.
Proof.
  unfold call_get_compiler, get_compiler, host_get_compiler, deref.
  destruct (queries h !! q) as [obj|]; [|done]. cbn [res_bind].
  destruct (is_CTEQuery (q_class obj)).
  - destruct (get_compiler_connection obj using_ connection) as [conn| |];
      [|done..].
    cbn. by intros [= <-].
  - destruct (Query_get_compiler _ _ _ _) as [kc| |]; [|done..].
    cbn. by intros [= <-].
Qed.

Lemma generate_sql_loop_settles (f : Compiler → res (string * pyseq Param))
    (h : Store) connection todo ctes params :
  host_settles →
  (∀ cte c, cte ∈ todo → compiler_query c = query cte → f c ≠ Fault OutOfFuel) →
  generate_sql_loop f h connection todo ctes params ≠ Fault OutOfFuel.
Proof.
  intros Hhost. revert ctes params.
  induction todo as [|cte todo IH]; intros ctes params Hf; [done|].
  cbn [generate_sql_loop]. unfold compile_cte.
  pose proof (call_get_compiler_settles h (query cte) None connection Hhost).
  destruct (call_get_compiler h (query cte) None connection) as [c|e|fl] eqn:Hc;
    [|done|by destruct fl].
  cbn [res_bind].
  pose proof (Hf cte c ltac:(by left) (call_get_compiler_query _ _ _ _ _ Hc)).
  destruct (f c) as [[cte_sql cte_params]|e|fl]; [|done|by destruct fl].
  cbn [res_bind]. rewrite TEMPLATE_format. cbn [res_bind].
  apply IH. intros cte' c' Hin. apply Hf. by right.
Qed.

Lemma generate_sql_with_settles (f : Compiler → res (string * pyseq Param))
    (h : Store) connection q cb :
  host_settles →
  cb () ≠ Fault OutOfFuel →
  (∀ cs cte c, with_ctes h q = Ok cs → cte ∈ cs → compiler_query c = query cte →
               f c ≠ Fault OutOfFuel) →
  generate_sql_with f h connection q cb ≠ Fault OutOfFuel.
Proof.
  intros Hhost Hcb Hf. unfold generate_sql_with.
  destruct (deref h q) as [obj|e|fl] eqn:Hobj; [|done|].
  2:{ unfold deref in Hobj. destruct (queries h !! q); [done|]. by injection Hobj as <-. }
  cbn [res_bind]. destruct (truthy_opt_str _); [done|].
  destruct (with_ctes h q) as [todo|e|fl] eqn:Htodo; [|done|].
  2:{ unfold with_ctes, getattr_with_ctes, list_read in Htodo. rewrite Hobj in Htodo.
      cbn in Htodo. destruct (_with_ctes obj) as [l|]; [|done]. cbn in Htodo.
      destruct (lists h !! l); [done|]. by injection Htodo as <-. }
  cbn [res_bind].
  pose proof (generate_sql_loop_settles f h connection todo [] [] Hhost
                (λ cte c, Hf todo cte c eq_refl)) as Hloop.
  destruct (generate_sql_loop f h connection todo [] []) as [[ctes params]|e|fl];
    [|done|by destruct fl].
  cbn [res_bind]. destruct (cb ()) as [[base_sql base_params]|e|fl];
    [done|done|by destruct fl].
Qed.

Lemma as_sql_enough_fuel (n : nat) (h : Store) c args :
  host_settles → bounded h n (compiler_query c) →
  as_sql n h c args ≠ Fault OutOfFuel.
Proof.
  intros Hhost. pose proof Hhost as (_ & _ & _ & Hsql).
  revert c args. induction n as [|n IH]; intros c args Hb; [done|].
  cbn [as_sql]. unfold deref.
  destruct (queries h !! compiler_query c) as [obj|]; [|done]. cbn [res_bind].
  destruct (super_compiler (compiler_class c)) as [base|]; [|apply Hsql].
  apply generate_sql_with_settles; [done|apply Hsql|].
  intros cs cte c' Hcs Hin Hc'. apply IH. rewrite Hc'. by eapply Hb.
Qed.

Lemma generate_sql_enough_fuel (n : nat) (h : Store) connection q cb :
  host_settles → cb () ≠ Fault OutOfFuel →
  (∀ cs cte, with_ctes h q = Ok cs → cte ∈ cs → bounded h n (query cte)) →
  generate_sql n h connection q cb ≠ Fault OutOfFuel.
Proof.
  intros Hhost Hcb Hb. unfold generate_sql.
  apply generate_sql_with_settles; [done..|].
  intros cs cte c Hcs Hin Hc. apply as_sql_enough_fuel; [done|].
  rewrite Hc. by eapply Hb.
Qed.
(** More fuel changes no answer but [OutOfFuel]. *)
Lemma generate_sql_loop_mono (f g : Compiler → res (string * pyseq Param))
    (h : Store) connection todo ctes params r :
  (∀ c r, f c = r → r ≠ Fault OutOfFuel → g c = r) →
  generate_sql_loop f h connection todo ctes params = r →
  r ≠ Fault OutOfFuel →
  generate_sql_loop g h connection todo ctes params = r.
Proof.
  intros Hfg. revert ctes params.
  induction todo as [|cte todo IH]; intros ctes params; [done|].
  cbn [generate_sql_loop]. unfold compile_cte.
  destruct (call_get_compiler h (query cte) None connection) as [c| |]; [|done..].
  cbn [res_bind].
  destruct (f c) as [[cte_sql cte_params]|e|fl] eqn:Hf.
  - rewrite (Hfg c _ Hf) by done. cbn [res_bind].
    destruct (format _ _); cbn [res_bind]; [apply IH|done..].
  - rewrite (Hfg c _ Hf) by done. done.
  - cbn [res_bind]. intros <- Hne.
    rewrite (Hfg c _ Hf) by (intros [= ->]; done). done.
Qed.

Lemma generate_sql_with_mono (f g : Compiler → res (string * pyseq Param))
    (h : Store) connection q cb r :
  (∀ c r, f c = r → r ≠ Fault OutOfFuel → g c = r) →
  generate_sql_with f h connection q cb = r →
  r ≠ Fault OutOfFuel →
  generate_sql_with g h connection q cb = r.
Proof.
  intros Hfg. unfold generate_sql_with.
  destruct (deref h q) as [obj| |]; [|done..]. cbn [res_bind].
  destruct (truthy_opt_str _); [done|].
  destruct (with_ctes h q) as [todo| |]; [|done..]. cbn [res_bind].
  destruct (generate_sql_loop f h connection todo [] []) as [[ctes params]|e|fl] eqn:Hloop.
  - rewrite (generate_sql_loop_mono f g _ _ _ _ _ _ Hfg Hloop) by done. done.
  - rewrite (generate_sql_loop_mono f g _ _ _ _ _ _ Hfg Hloop) by done. done.
  - cbn [res_bind]. intros <- Hne.
    rewrite (generate_sql_loop_mono f g _ _ _ _ _ _ Hfg Hloop)
      by (intros [= ->]; done).
    done.
Qed.

Lemma as_sql_fuel_S fuel (h : Store) c args r :
  as_sql fuel h c args = r → r ≠ Fault OutOfFuel →
  as_sql (S fuel) h c args = r.
Proof.
  revert c args r. induction fuel as [|fuel IH]; intros c args r.
  - cbn. by intros <-.
  - intros Hr Hne. cbn [as_sql] in Hr |- *.
    destruct (deref h (compiler_query c)) as [obj| |]; [|done..].
    cbn [res_bind] in *.
    destruct (super_compiler (compiler_class c)) as [base|]; [|done].
    eapply generate_sql_with_mono; [|exact Hr|done].
    intros c' r' Hc' Hne'. by apply IH.
Qed.

Lemma as_sql_fuel_mono (fuel fuel' : nat) (h : Store) c args r :
  (fuel ≤ fuel')%nat → as_sql fuel h c args = r → r ≠ Fault OutOfFuel →
  as_sql fuel' h c args = r.
Proof.
  induction 1 as [|fuel' _ IH]; [done|].
  intros Hr Hne. apply as_sql_fuel_S; auto.
Qed.

Lemma generate_sql_fuel_mono (fuel fuel' : nat) (h : Store) connection q cb r :
  (fuel ≤ fuel')%nat → generate_sql fuel h connection q cb = r →
  r ≠ Fault OutOfFuel →
  generate_sql fuel' h connection q cb = r.
Proof.
  intros Hle Hr Hne. unfold generate_sql in *.
  eapply generate_sql_with_mono; [|exact Hr|done].
  intros c r' Hc Hne'. by apply (as_sql_fuel_mono fuel).
Qed.

(** ** What the specification promises *)

(** C1.  A query without combinator that carries one or more CTEs: when the
    bodies compile to [rs] and the wrapped [as_sql] answers [base_sql] and
    [base_params], [generate_sql] answers [WITH RECURSIVE], the clauses
    [<name> AS (<body>)] of the CTEs in the order of the list, separated by
    commas, then [base_sql]; and a tuple of the parameters of the bodies in
    that order, then [base_params]. *)
Theorem generate_sql_with_ctes fuel (h : Store) connection q obj todo rs
    as_sql_callback base_sql base_params :
  queries h !! q = Some obj →
  truthy_opt_str (combinator (q_host obj)) = false →
  with_ctes h q = Ok todo →
  todo ≠ [] →
  Forall2 (λ cte r,
             compile_cte (λ c, as_sql fuel h c no_args) h connection cte = Ok r)
          todo rs →
  as_sql_callback () = Ok (base_sql, base_params) →
  generate_sql fuel h connection q as_sql_callback
  = Ok (spec_with_recursive
          (zip_with spec_clause (name <$> todo) (fst <$> rs)) base_sql,
        PyTuple (concat ((items ∘ snd) <$> rs) ++ items base_params)).
Proof.
  intros Hq Hcomb Htodo Hne Hall Hcb.
  unfold generate_sql, generate_sql_with, deref.
  rewrite Hq. simpl. rewrite Hcomb, Htodo. simpl.
  rewrite (generate_sql_loop_spec _ _ _ _ rs) by done. simpl.
  rewrite Hcb. simpl.
  destruct Hall as [|cte r todo rs Hcte Hall]; [done|].
  simpl. done.
Qed.

(** C2.  A query whose CTE list is empty: the SQL text that [generate_sql]
    answers is the text the wrapped [as_sql] answers, and it fails as the
    callback fails. *)
Theorem generate_sql_no_ctes fuel (h : Store) connection q as_sql_callback :
  with_ctes h q = Ok [] →
  res_map fst (generate_sql fuel h connection q as_sql_callback)
  = res_map fst (as_sql_callback ()).
Proof.
  intros Hnil.
  unfold generate_sql, generate_sql_with.
  destruct (deref h q) as [obj| |] eqn:Hobj;
    [|unfold with_ctes, getattr_with_ctes in Hnil; by rewrite Hobj in Hnil..].
  cbn [res_bind].
  destruct (truthy_opt_str _); [done|].
  rewrite Hnil. cbn.
  by destruct (as_sql_callback ()) as [[base_sql base_params]| |].
Qed.

(** What [__chain] does to a query that carries the CTEs [cs]. *)
Lemma __chain_copies_list (h : Store) self obj ls cs _name klass args st :
  queries h !! self = Some obj → _with_ctes obj = Some ls → lists h !! ls = Some cs →
  Query_copy _name (q_host obj) (QUERY_TYPES_get klass (q_class obj)) args = Ok st →
  ∃ clone lc h',
    __chain self _name klass args h = (Ok clone, h')
    ∧ clone ≠ self ∧ lc ≠ ls
    ∧ carries h' clone lc cs
    ∧ carries h' self ls cs
    ∧ (∀ q0 obj0, queries h !! q0 = Some obj0 → queries h' !! q0 = Some obj0)
    ∧ ∀ f, ∃ h'',
        list_mutate f lc h' = (Ok (), h'')
        ∧ carries h'' clone lc (f cs)
        ∧ carries h'' self ls cs.
Proof.
  intros Hself Hls Hcs Hcopy.
  pose proof (fresh_query_ne _ _ _ Hself) as Hq.
  pose proof (fresh_list_ne _ _ _ Hcs) as Hl.
  eexists _, (fresh (dom (lists h))), _.
  split; [by apply (__chain_run h self obj ls cs)|].
  split; [done|]. split; [done|].
  split_and!.
  - eexists. cbn [queries lists]. rewrite !lookup_insert_eq. done.
  - exists obj. cbn [queries lists]. rewrite !lookup_insert_ne by done. done.
  - intros q0 obj0 Hq0. cbn [queries]. rewrite lookup_insert_ne; [done|].
    by eapply fresh_query_ne.
  - intros f. eexists. split.
    + apply list_mutate_run. cbn [lists]. by rewrite lookup_insert_eq.
    + split.
      * eexists. cbn [queries lists]. rewrite !lookup_insert_eq. done.
      * exists obj. cbn [queries lists]. rewrite !lookup_insert_ne by done. done.
Qed.

(** C4.  The method with which the shim copies a query, [clone] under
    [django.VERSION < (2, 0)] and [chain] from 2.0 on: on a query that
    carries the CTEs [cs] it answers a new query object that carries a new
    list object with the same entries [cs] (the same names and the same
    body objects, which are as they were); the original still carries its
    own list, and however the list of the copy is changed afterwards, the
    list of the original holds [cs]. *)
Theorem shim_copy_copies_list (h : Store) self obj ls cs klass args st :
  queries h !! self = Some obj → _with_ctes obj = Some ls → lists h !! ls = Some cs →
  Query_copy (if version_lt django_VERSION (2, 0) then "clone" else "chain")
    (q_host obj) (QUERY_TYPES_get klass (q_class obj))
    (if version_lt django_VERSION (2, 0) then args else no_args) = Ok st →
  ∃ copy lc h',
    (if version_lt django_VERSION (2, 0) then clone self klass args
     else chain self klass) h = (Ok copy, h')
    ∧ copy ≠ self ∧ lc ≠ ls
    ∧ carries h' copy lc cs
    ∧ carries h' self ls cs
    ∧ (∀ q0 obj0, queries h !! q0 = Some obj0 → queries h' !! q0 = Some obj0)
    ∧ ∀ f, ∃ h'',
        list_mutate f lc h' = (Ok (), h'')
        ∧ carries h'' copy lc (f cs)
        ∧ carries h'' self ls cs.
Proof.
  intros Hself Hls Hcs. unfold clone, chain.
  destruct (version_lt django_VERSION (2, 0)); by apply __chain_copies_list.
Qed.

(** C5.  Two queries of the shim of which at most one carries a non-empty
    CTE list: [combine] does what the host's [combine] does, so it raises no
    error of its own, and afterwards the receiving query carries the CTEs of
    the non-empty side: its own when the other side is empty, those of the
    other side when its own side is empty, none when both are. *)
Theorem combine_one_side (h : Store) self other s o ls lo cs co connector :
  queries h !! self = Some s → _with_ctes s = Some ls → lists h !! ls = Some cs →
  queries h !! other = Some o → _with_ctes o = Some lo → lists h !! lo = Some co →
  cs = [] ∨ co = [] →
  ∃ l' cs' h',
    combine self other connector h
    = ((Query_combine (q_host s) (q_host o) connector).1, h')
    ∧ carries h' self l' cs'
    ∧ (co = [] → cs' = cs)
    ∧ (cs = [] → cs' = co).
Proof.
  intros Hs Hls Hcs Ho Hlo Hco Hone.
  destruct (decide (co = [])) as [->|Hne].
  - eexists ls, cs, _. split; [by apply (combine_run_keep h self other s o lo)|].
    split_and!; [|done|by intros ->].
    eexists. cbn [queries lists]. rewrite lookup_insert_eq. done.
  - destruct Hone as [->|?]; [|done].
    eexists (fresh (dom (lists h))), co, _.
    split; [by apply (combine_run_adopt h self other s o ls lo co)|].
    split_and!; [|done|done].
    eexists. cbn [queries lists]. rewrite !lookup_insert_eq. done.
Qed.

(** C6.  A query whose [combinator] is set: [generate_sql] answers what the
    wrapped [as_sql] answers and nothing more, whatever [_with_ctes]
    holds. *)
Theorem generate_sql_combinator fuel (h : Store) connection q obj as_sql_callback :
  queries h !! q = Some obj →
  truthy_opt_str (combinator (q_host obj)) = true →
  generate_sql fuel h connection q as_sql_callback = as_sql_callback ().
Proof.
  intros Hq Hcomb. unfold generate_sql, generate_sql_with, deref.
  rewrite Hq. cbn [res_bind]. by rewrite Hcomb.
Qed.

(** C7.  Whenever the part that [get_compiler] copies from the host gets
    through, [get_compiler] answers a compiler for this query whose class is
    the entry of the table for the class of the query:
    [CTEUpdateQueryCompiler] for a [CTEUpdateQuery],
    [CTEDeleteQueryCompiler] for a [CTEDeleteQuery], and
    [CTEQueryCompiler] for a class the table has no entry for. *)
Theorem get_compiler_class (h : Store) self obj using_ connection conn :
  queries h !! self = Some obj →
  get_compiler_connection obj using_ connection = Ok conn →
  ∃ c, get_compiler h self using_ connection = Ok c
       ∧ compiler_query c = self
       ∧ compiler_connection c = conn
       ∧ compiler_class c = spec_compiler_class (q_class obj)
       ∧ (q_class obj = CTEUpdateQuery → compiler_class c = CTEUpdateQueryCompiler)
       ∧ (q_class obj = CTEDeleteQuery → compiler_class c = CTEDeleteQueryCompiler)
       ∧ (dict_lookup COMPILER_TYPES (q_class obj) = None →
          compiler_class c = CTEQueryCompiler).
Proof.
  intros Hq Hconn. unfold get_compiler, deref. rewrite Hq. cbn [res_bind].
  rewrite Hconn. cbn [res_bind]. rewrite COMPILER_TYPES_get.
  eexists. split; [done|]. cbn [compiler_query compiler_connection compiler_class].
  split_and!; [done|done|done|by intros ->|by intros ->|].
  by destruct (q_class obj).
Qed.

(** C8.  Constructing an instance of [CTEQuery], [CTEUpdateQuery],
    [CTEDeleteQuery] or a subclass: the new query carries an empty list,
    the list object is new, no other query object of the store holds it,
    and the queries that were there carry what they carried. *)
Theorem construct_fresh_list (h : Store) cls args st :
  wf h → is_CTEQuery cls = true → Query__init__ cls args = Ok st →
  ∃ q l h',
    construct cls args h = (Ok q, h')
    ∧ carries h' q l []
    ∧ lists h !! l = None
    ∧ (∀ q0 l0 cs0, q0 ≠ q → carries h' q0 l0 cs0 → l0 ≠ l)
    ∧ (∀ q0 l0 cs0, carries h q0 l0 cs0 → carries h' q0 l0 cs0)
    ∧ wf h'.
Proof.
  intros Hwf Hcls Hinit. pose proof (proj1 (wf_alt h) Hwf) as Hwf'.
  eexists _, (fresh (dom (lists h))), _.
  split; [by apply construct_run|].
  split_and!.
  - eexists. cbn [queries lists]. rewrite !lookup_insert_eq. done.
  - apply fresh_list.
  - intros q0 l0 cs0 Hne (obj0 & Hq0 & Hl0 & _) ->. cbn [queries] in Hq0.
    rewrite lookup_insert_ne in Hq0 by done.
    destruct (Hwf' _ _ _ Hq0 Hl0) as [cs Hcs].
    by eapply fresh_list_ne.
  - intros q0 l0 cs0 (obj0 & Hq0 & Hl0 & Hcs0). exists obj0. cbn [queries lists].
    rewrite !lookup_insert_ne; [done|..].
    + by eapply fresh_list_ne.
    + by eapply fresh_query_ne.
  - by apply wf_insert_both.
Qed.

(** C9.  When [combine] raises the [TypeError] on two non-empty lists, the
    store is the store it was called on, whatever the host's [combine]
    would have done to it: the list of the receiving query is as it was. *)
Theorem combine_raise_keeps_store (h : Store) self other ls lo cs co connector :
  carries h self ls cs → carries h other lo co →
  cs ≠ [] → co ≠ [] →
  combine self other connector h
  = (Raise (TypeError "cannot merge queries with CTEs on both sides"), h)
  ∧ carries (combine self other connector h).2 self ls cs.
Proof.
  intros Hs Ho Hcs Hco.
  rewrite (combine_run_both h self other ls lo cs co) by done. done.
Qed.

(** C10.  When the receiving query has no CTEs and the other query has
    some, [combine] gives the receiving query a new list object with the
    entries of the other's list; the other query keeps its own list object,
    and however the new list is changed afterwards, the list of the other
    query holds what it held. *)
Theorem combine_adopts_copy (h : Store) self other s o ls lo co connector :
  queries h !! self = Some s → _with_ctes s = Some ls → lists h !! ls = Some [] →
  queries h !! other = Some o → _with_ctes o = Some lo → lists h !! lo = Some co →
  co ≠ [] →
  ∃ l' h',
    combine self other connector h
    = ((Query_combine (q_host s) (q_host o) connector).1, h')
    ∧ l' ≠ lo
    ∧ carries h' self l' co
    ∧ carries h' other lo co
    ∧ ∀ f, ∃ h'',
        list_mutate f l' h' = (Ok (), h'')
        ∧ carries h'' self l' (f co)
        ∧ carries h'' other lo co.
Proof.
  intros Hs Hls Hcs Ho Hlo Hco Hne.
  assert (self ≠ other) as Hso by (intros ->; naive_solver).
  pose proof (fresh_list_ne _ _ _ Hco) as Hfresh.
  eexists (fresh (dom (lists h))), _.
  split; [by apply (combine_run_adopt h self other s o ls lo co)|].
  split; [done|].
  split_and!.
  - eexists. cbn [queries lists]. rewrite !lookup_insert_eq. done.
  - exists o. cbn [queries lists].
    rewrite lookup_insert_ne by done. rewrite lookup_insert_ne by done. done.
  - intros f. eexists. split.
    + apply list_mutate_run. cbn [lists]. by rewrite lookup_insert_eq.
    + split.
      * eexists. cbn [queries lists]. rewrite !lookup_insert_eq. done.
      * exists o. cbn [queries lists].
        rewrite lookup_insert_ne by done. rewrite !lookup_insert_ne by done. done.
Qed.

End Properties.

(** * The theorems at work on the small host *)

Lemma generate_sql_with_ctes_witness :
  generate_sql 2 toy_store (Some "default") 1%positive toy_callback
  = Ok ("WITH RECURSIVE a AS (SELECT x), b AS (SELECT y) SELECT * FROM a, b",
        PyTuple [1; 2; 3; 7]).
Proof.
  refine (generate_sql_with_ctes 2 toy_store (Some "default") 1%positive
            (toy_obj CTEQuery "SELECT * FROM a, b" [7] None (Some 1%positive))
            [ {| name := "a"; query := 2%positive |};
              {| name := "b"; query := 3%positive |} ]
            [ ("SELECT x", PyTuple [1; 2]); ("SELECT y", PyTuple [3]) ]
            toy_callback "SELECT * FROM a, b" (PyTuple [7]) _ _ _ _ _ _).
  - vm_compute. reflexivity.
  - vm_compute. reflexivity.
  - vm_compute. reflexivity.
  - discriminate.
  - repeat (constructor; [vm_compute; reflexivity|]). constructor.
  - reflexivity.
Defined.

Lemma generate_sql_no_ctes_witness :
  res_map fst (generate_sql 1 toy_store (Some "default") 2%positive toy_callback)
  = Ok "SELECT * FROM a, b".
Proof.
  refine (generate_sql_no_ctes 1 toy_store (Some "default") 2%positive
            toy_callback _).
  vm_compute. reflexivity.
Defined.

Lemma combine_one_side_witness :
  ∃ l' h',
    combine 2%positive 1%positive "AND" toy_store = (Ok (), h')
    ∧ carries h' 2%positive l' [ {| name := "a"; query := 2%positive |};
                                 {| name := "b"; query := 3%positive |} ].
Proof.
  destruct (combine_one_side toy_store 2%positive 1%positive
              (toy_obj CTEQuery "SELECT x" [1; 2] None (Some 2%positive))
              (toy_obj CTEQuery "SELECT * FROM a, b" [7] None (Some 1%positive))
              2%positive 1%positive []
              [ {| name := "a"; query := 2%positive |};
                {| name := "b"; query := 3%positive |} ]
              "AND")
    as (l' & cs' & h' & Hrun & Hcarries & _ & Hcs').
  - vm_compute. reflexivity.
  - reflexivity.
  - vm_compute. reflexivity.
  - vm_compute. reflexivity.
  - reflexivity.
  - vm_compute. reflexivity.
  - left. reflexivity.
  - exists l', h'. rewrite <- (Hcs' eq_refl). split; assumption.
Defined.

Lemma generate_sql_combinator_witness :
  generate_sql 0 toy_store None 4%positive toy_callback
  = Ok ("SELECT * FROM a, b", PyTuple [7]).
Proof.
  refine (generate_sql_combinator 0 toy_store None 4%positive
            (toy_obj CTEQuery "SELECT 1 UNION SELECT 2" [] (Some "union")
                     (Some 4%positive))
            toy_callback _ _).
  - vm_compute. reflexivity.
  - reflexivity.
Defined.

Lemma get_compiler_class_witness :
  ∃ c, get_compiler toy_store 5%positive None (Some "default") = Ok c
       ∧ compiler_class c = CTEUpdateQueryCompiler.
Proof.
  destruct (get_compiler_class toy_store 5%positive
              (toy_obj CTEUpdateQuery "UPDATE t SET v = %s" [9] None
                       (Some 5%positive))
              None (Some "default") (Some "default"))
    as (c & Hrun & _ & _ & _ & Hupdate & _).
  - vm_compute. reflexivity.
  - reflexivity.
  - exists c. split; [assumption|]. apply Hupdate. reflexivity.
Defined.

Lemma construct_fresh_list_witness :
  ∃ q l h',
    construct CTEDeleteQuery [4] toy_store = (Ok q, h')
    ∧ carries h' q l []
    ∧ lists toy_store !! l = None.
Proof.
  destruct (construct_fresh_list toy_store CTEDeleteQuery [4]
              {| toy_sql := "SELECT 1"; toy_params := [4];
                 toy_combinator := None |})
    as (q & l & h' & Hrun & Hcarries & Hfresh & _).
  - apply (bool_decide_unpack _). vm_compute. reflexivity.
  - reflexivity.
  - reflexivity.
  - exists q, l, h'. repeat split; assumption.
Defined.

Lemma combine_raise_keeps_store_witness :
  combine 1%positive 5%positive "AND" toy_store
  = (Raise (TypeError "cannot merge queries with CTEs on both sides"), toy_store).
Proof.
  refine (proj1 (combine_raise_keeps_store toy_store 1%positive 5%positive
                   1%positive 5%positive
                   [ {| name := "a"; query := 2%positive |};
                     {| name := "b"; query := 3%positive |} ]
                   [ {| name := "d"; query := 3%positive |} ]
                   "AND" _ _ _ _)).
  - eexists. vm_compute. repeat split; reflexivity.
  - eexists. vm_compute. repeat split; reflexivity.
  - discriminate.
  - discriminate.
Defined.

Lemma combine_adopts_copy_witness :
  ∃ l' h',
    combine 2%positive 1%positive "AND" toy_store = (Ok (), h')
    ∧ l' ≠ 1%positive
    ∧ ∃ h'',
        list_mutate (λ cs, cs ++ [ {| name := "e"; query := 3%positive |} ]) l' h'
        = (Ok (), h'')
        ∧ carries h'' 1%positive 1%positive
            [ {| name := "a"; query := 2%positive |};
              {| name := "b"; query := 3%positive |} ].
Proof.
  destruct (combine_adopts_copy toy_store 2%positive 1%positive
              (toy_obj CTEQuery "SELECT x" [1; 2] None (Some 2%positive))
              (toy_obj CTEQuery "SELECT * FROM a, b" [7] None (Some 1%positive))
              2%positive 1%positive
              [ {| name := "a"; query := 2%positive |};
                {| name := "b"; query := 3%positive |} ]
              "AND")
    as (l' & h' & Hrun & Hne & _ & _ & Hmutate).
  - vm_compute. reflexivity.
  - reflexivity.
  - vm_compute. reflexivity.
  - vm_compute. reflexivity.
  - reflexivity.
  - vm_compute. reflexivity.
  - discriminate.
  - destruct (Hmutate (λ cs, cs ++ [ {| name := "e"; query := 3%positive |} ]))
      as (h'' & Hmut & _ & Hother).
    exists l', h'. split; [assumption|]. split; [assumption|].
    exists h''. split; assumption.
Defined.

(** A CTE inside the body of a CTE: the compiler of the body is a compiler
    of the shim and writes its own [WITH RECURSIVE]. *)
Example generate_sql_nested :
  generate_sql 2 toy_store (Some "default") 6%positive
    (λ _, Ok ("SELECT * FROM n", PyTuple []))
  = Ok ("WITH RECURSIVE n AS (WITH RECURSIVE a AS (SELECT x), b AS (SELECT y) "
        +:+ "SELECT * FROM a, b) SELECT * FROM n",
        PyTuple [1; 2; 3; 7]).
Proof. vm_compute. reflexivity. Qed.

(** ... for which one level of fuel is too little. *)
Example generate_sql_nested_fuel :
  generate_sql 1 toy_store (Some "default") 6%positive
    (λ _, Ok ("SELECT * FROM n", PyTuple []))
  = Fault OutOfFuel.
Proof. vm_compute. reflexivity. Qed.

(** Without a connection the bodies cannot be compiled: [get_compiler] of
    the first body raises its [ValueError]. *)
Example generate_sql_no_connection :
  generate_sql 2 toy_store None 1%positive toy_callback
  = Raise (ValueError "Need either using or connection").
Proof. vm_compute. reflexivity. Qed.

(** * More of the code *)

Section MoreProperties.
Context `{HostORM}.

(** ** __chain and the tables *)

Lemma QUERY_TYPES_get_CTE (klass : option Klass) (k : Klass) :
  is_CTEQuery k = true → is_CTEQuery (QUERY_TYPES_get klass k) = true.
Proof.
  intros Hk. destruct klass as [k'|]; [|done].
  unfold QUERY_TYPES_get, QUERY_TYPES. cbn [dict_get].
  repeat case_decide; done.
Qed.

Lemma QUERY_TYPES_get_other (klass : option Klass) (k : Klass) :
  klass ≠ Some UpdateQuery → klass ≠ Some DeleteQuery →
  QUERY_TYPES_get klass k = k.
Proof.
  intros Hu Hd. destruct klass as [k'|]; [|done].
  unfold QUERY_TYPES_get, QUERY_TYPES. cbn [dict_get].
  repeat case_decide; congruence.
Qed.

(** X1.  The class of the copy that [__chain] answers: [CTEUpdateQuery]
    when an [UpdateQuery] is asked for, [CTEDeleteQuery] when a
    [DeleteQuery] is, and the class of the original for [None] and for
    every other class, which is ignored; so the copy of a query of the shim
    is a query of the shim.  Its host attributes are those the host's copy
    gave. *)
Theorem chain_class (h : Store) self obj ls cs _name klass args st :
  queries h !! self = Some obj → _with_ctes obj = Some ls → lists h !! ls = Some cs →
  Query_copy _name (q_host obj) (QUERY_TYPES_get klass (q_class obj)) args = Ok st →
  ∃ clone cobj h',
    __chain self _name klass args h = (Ok clone, h')
    ∧ queries h' !! clone = Some cobj
    ∧ q_host cobj = st
    ∧ (klass = Some UpdateQuery → q_class cobj = CTEUpdateQuery)
    ∧ (klass = Some DeleteQuery → q_class cobj = CTEDeleteQuery)
    ∧ (klass ≠ Some UpdateQuery → klass ≠ Some DeleteQuery →
       q_class cobj = q_class obj)
    ∧ (is_CTEQuery (q_class obj) = true → is_CTEQuery (q_class cobj) = true).
Proof.
  intros Hself Hls Hcs Hcopy.
  eexists _, _, _. split; [by apply (__chain_run h self obj ls cs)|].
  cbn [queries]. rewrite lookup_insert_eq. split; [done|].
  cbn [q_host q_class]. split_and!; [done|by intros ->..| |].
  - apply QUERY_TYPES_get_other.
  - apply QUERY_TYPES_get_CTE.
Qed.

(** X2.  [get_compiler] without [using] and without [connection] raises
    the [ValueError], whatever the query holds.  With the empty alias, which
    is not [None] and not true either, the check passes and no connection
    is looked up: a query without annotations gets a compiler that has no
    connection, a query with annotations fails on [connection.ops]. *)
Theorem get_compiler_without_connection (h : Store) self obj :
  queries h !! self = Some obj →
  get_compiler h self None None
  = Raise (ValueError "Need either using or connection")
  ∧ (annotation_select (q_host obj) = [] →
     get_compiler h self (Some "") None
     = Ok {| compiler_class := spec_compiler_class (q_class obj);
             compiler_query := self;
             compiler_connection := None;
             compiler_using := Some "" |})
  ∧ (annotation_select (q_host obj) ≠ [] →
     get_compiler h self (Some "") None = Raise (AttributeError "ops")).
Proof.
  intros Hq. unfold get_compiler, deref. rewrite Hq. cbn [res_bind].
  rewrite COMPILER_TYPES_get.
  split; [done|]. unfold get_compiler_connection. cbn [truthy_str res_bind].
  split.
  - by intros ->.
  - intros Hne. by destruct (annotation_select (q_host obj)) as [|[alias aggregate] l].
Qed.

(** X3.  When [using] is a non-empty alias, the connection that is passed
    counts for nothing: [get_compiler] answers as it does without one, it
    raises what [connections[using]] raises, and the compiler it answers
    holds the connection of the alias. *)
Theorem get_compiler_using_wins (h : Store) self obj alias connection :
  queries h !! self = Some obj → truthy_str alias = true →
  get_compiler h self (Some alias) connection
  = get_compiler h self (Some alias) None
  ∧ (∀ e, connections alias = Raise e →
          get_compiler h self (Some alias) connection = Raise e)
  ∧ (∀ c cmp, connections alias = Ok c →
          get_compiler h self (Some alias) connection = Ok cmp →
          compiler_connection cmp = Some c).
Proof.
  intros Hq Halias. unfold get_compiler, deref. rewrite Hq. cbn [res_bind].
  unfold get_compiler_connection.
  assert (∀ conn : option Connection,
            match Some alias, conn with
            | None, None => Raise (ValueError "Need either using or connection")
            | _, _ =>
                (connection0 <-
                   (if truthy_str alias then (c <- connections alias ;; Ok (Some c))
                    else Ok conn) ;;
                 _ <- check_annotations connection0 (annotation_select (q_host obj)) ;;
                 Ok connection0)%res
            end
            = (c <- connections alias ;;
               _ <- check_annotations (Some c) (annotation_select (q_host obj)) ;;
               Ok (Some c))%res) as Hconn.
  { intros conn. destruct conn; rewrite Halias; by destruct (connections alias). }
  rewrite !Hconn. split_and!.
  - done.
  - by intros e ->.
  - intros c cmp ->. cbn [res_bind].
    destruct (check_annotations _ _); [|done..]. cbn. by intros [= <-].
Qed.

(** ** get_compiler, as_sql and generate_sql at the edges *)

Lemma check_annotations_all (c : Connection) (l : list (string * Expression)) :
  Forall (λ ae, check_expression_support c ae.2 = Ok ()) l →
  check_annotations (Some c) l = Ok ().
Proof.
  induction 1 as [|[alias aggregate] l Hhd _ IH]; [done|].
  cbn [check_annotations]. cbn in Hhd. by rewrite Hhd.
Qed.

Lemma check_annotations_first (c : Connection) pre alias aggregate post e :
  Forall (λ ae, check_expression_support c ae.2 = Ok ()) pre →
  check_expression_support c aggregate = Raise e →
  check_annotations (Some c) (pre ++ (alias, aggregate) :: post) = Raise e.
Proof.
  intros Hpre He. induction Hpre as [|[alias' aggregate'] pre Hhd _ IH].
  - cbn. by rewrite He.
  - cbn [app check_annotations]. cbn in Hhd. by rewrite Hhd.
Qed.

(** X4.  [get_compiler] with a connection checks the annotations in their
    order: when the connection supports them all it answers the compiler
    for that connection, and at the first one it does not support it raises
    what the check raises. *)
Theorem get_compiler_checks_annotations (h : Store) self obj c :
  queries h !! self = Some obj →
  (Forall (λ ae, check_expression_support c ae.2 = Ok ())
          (annotation_select (q_host obj)) →
   get_compiler h self None (Some c)
   = Ok {| compiler_class := spec_compiler_class (q_class obj);
           compiler_query := self;
           compiler_connection := Some c;
           compiler_using := None |})
  ∧ (∀ pre alias aggregate post e,
       annotation_select (q_host obj) = pre ++ (alias, aggregate) :: post →
       Forall (λ ae, check_expression_support c ae.2 = Ok ()) pre →
       check_expression_support c aggregate = Raise e →
       get_compiler h self None (Some c) = Raise e).
Proof.
  intros Hq. unfold get_compiler, deref. rewrite Hq. cbn [res_bind].
  rewrite COMPILER_TYPES_get. unfold get_compiler_connection. cbn [res_bind].
  split.
  - intros Hall. by rewrite check_annotations_all.
  - intros pre alias aggregate post e -> Hpre He.
    by rewrite (check_annotations_first c pre alias aggregate post e).
Qed.

(** X5.  [as_sql] of a compiler of the shim on a query whose combinator
    is set is [as_sql] of the host compiler it extends, as it is; on a
    query without CTEs it answers the same SQL text and the same
    parameters, and fails as the host compiler fails. *)
Theorem as_sql_transparent fuel (h : Store) c obj base args :
  queries h !! compiler_query c = Some obj →
  super_compiler (compiler_class c) = Some base →
  (truthy_opt_str (combinator (q_host obj)) = true →
   as_sql (S fuel) h c args
   = SQLCompiler_as_sql base (q_host obj) (compiler_connection c) args)
  ∧ (with_ctes h (compiler_query c) = Ok [] →
     res_map (λ r, (r.1, items r.2)) (as_sql (S fuel) h c args)
     = res_map (λ r, (r.1, items r.2))
         (SQLCompiler_as_sql base (q_host obj) (compiler_connection c) args)).
Proof.
  intros Hq Hbase. cbn [as_sql]. unfold deref. rewrite Hq. cbn [res_bind].
  rewrite Hbase. unfold generate_sql_with, deref. rewrite Hq. cbn [res_bind].
  split.
  - by intros ->.
  - intros Hnil. destruct (truthy_opt_str _); [done|].
    rewrite Hnil. cbn.
    by destruct (SQLCompiler_as_sql _ _ _ _) as [[base_sql base_params]| |].
Qed.

Lemma generate_sql_loop_first_Raise (f : Compiler → res (string * pyseq Param))
    (h : Store) connection pre rs cte post ctes params e :
  Forall2 (λ cte r, compile_cte f h connection cte = Ok r) pre rs →
  compile_cte f h connection cte = Raise e →
  generate_sql_loop f h connection (pre ++ cte :: post) ctes params = Raise e.
Proof.
  intros Hpre He. revert ctes params.
  induction Hpre as [|cte' [cte_sql cte_params] pre rs Hcte _ IH]; intros ctes params.
  - cbn [app generate_sql_loop]. by rewrite He.
  - cbn [app generate_sql_loop]. rewrite Hcte. cbn [res_bind].
    rewrite TEMPLATE_format. cbn [res_bind]. apply IH.
Qed.

(** X6.  When the body of a CTE cannot be compiled and the bodies before
    it can, [generate_sql] raises what compiling that body raises, whatever
    the wrapped [as_sql] would answer: the bodies are compiled first. *)
Theorem generate_sql_body_error (fuel : nat) (h : Store) connection q obj
    pre rs cte post e as_sql_callback :
  queries h !! q = Some obj →
  truthy_opt_str (combinator (q_host obj)) = false →
  with_ctes h q = Ok (pre ++ cte :: post) →
  Forall2 (λ cte r,
             compile_cte (λ c, as_sql fuel h c no_args) h connection cte = Ok r)
          pre rs →
  compile_cte (λ c, as_sql fuel h c no_args) h connection cte = Raise e →
  generate_sql fuel h connection q as_sql_callback = Raise e.
Proof.
  intros Hq Hcomb Htodo Hpre He.
  unfold generate_sql, generate_sql_with, deref. rewrite Hq. cbn [res_bind].
  rewrite Hcomb, Htodo. cbn [res_bind].
  by rewrite (generate_sql_loop_first_Raise _ _ _ pre rs cte post [] [] e).
Qed.

(** X7.  [combine] with another query that has no [_with_ctes] (a query
    of the host that never met the shim) raises [AttributeError] and leaves
    the store as it was: the host's [combine] is not reached. *)
Theorem combine_other_without_ctes_attribute (h : Store) self other o connector :
  queries h !! other = Some o → _with_ctes o = None →
  combine self other connector h = (Raise (AttributeError "_with_ctes"), h).
Proof.
  intros Ho Hnone.
  unfold combine, bind, read, with_ctes, getattr_with_ctes, deref.
  rewrite Ho. cbn. by rewrite Hnone.
Qed.

(** ** The invariant, whatever the outcome *)

Lemma __chain_wf_any (h : Store) self _name klass args :
  wf h → wf (__chain self _name klass args h).2.
Proof.
  intros Hwf. pose proof (proj1 (wf_alt h) Hwf) as Hwf'.
  destruct (queries h !! self) as [obj|] eqn:Hself; last first.
  { unfold __chain, bind, read, deref. by rewrite Hself. }
  pose proof (deref_Some _ _ _ Hself) as Hderef.
  destruct (Query_copy _name (q_host obj) (QUERY_TYPES_get klass (q_class obj)) args)
    as [st| |] eqn:Hcopy.
  2,3: unfold __chain; rewrite (bind_read _ _ _ obj) by done; cbn zeta;
       unfold super_copy, bind at 1; rewrite (bind_read _ _ _ obj) by done;
       unfold bind, lift; by rewrite Hcopy.
  destruct (_with_ctes obj) as [ls|] eqn:Hls.
  - destruct (Hwf' _ _ _ Hself Hls) as [cs Hcs]. by eapply __chain_wf.
  - unfold __chain. rewrite (bind_read _ _ _ obj) by done. cbn zeta.
    erewrite bind_Ok; last first.
    { unfold super_copy. rewrite (bind_read _ _ _ obj) by done.
      rewrite (bind_lift _ _ _ st) by done. apply object_new_run. }
    unfold bind, read, getattr_with_ctes, deref. cbn [queries].
    rewrite lookup_insert_ne by by eapply fresh_query_ne.
    rewrite Hself. cbn [res_bind]. rewrite Hls. cbn [snd].
    apply wf_insert_query; [done|]. cbn [_with_ctes].
    by destruct (Query_copy_keeps_dict _name).
Qed.

Lemma construct_wf_any (h : Store) cls args :
  wf h → wf (construct cls args h).2.
Proof.
  intros Hwf. unfold construct.
  destruct (is_CTEQuery cls) eqn:Hcls.
  - destruct (Query__init__ cls args) as [st| |] eqn:Hinit.
    + pose proof (construct_run h cls args st Hcls Hinit) as Hrun.
      unfold construct in Hrun. rewrite Hcls in Hrun. rewrite Hrun. cbn [snd].
      by apply wf_insert_both.
    + unfold __init__, bind, lift. by rewrite Hinit.
    + unfold __init__, bind, lift. by rewrite Hinit.
  - unfold bind, lift. destruct (Query__init__ cls args) as [st| |]; [|done..].
    rewrite object_new_run. cbn [snd]. by apply wf_insert_query.
Qed.

(** X8.  Whatever they answer, [combine], [__chain], a constructor and
    any change of a list in place leave no [_with_ctes] dangling when there
    was none. *)
Theorem shim_keeps_wf (h : Store) :
  wf h →
  (∀ self other connector, wf (combine self other connector h).2)
  ∧ (∀ self _name klass args, wf (__chain self _name klass args h).2)
  ∧ (∀ cls args, wf (construct cls args h).2)
  ∧ (∀ f l, wf (list_mutate f l h).2).
Proof.
  intros Hwf. split_and!; intros.
  - by apply combine_wf.
  - by apply __chain_wf_any.
  - by apply construct_wf_any.
  - by apply list_mutate_wf.
Qed.

(** ** Stores that grow *)

Lemma res_bind_extends {A B} (r1 r1' : res A) (k k' : A → res B) (r : res B) :
  (no_dangling r1 → r1' = r1) →
  (∀ a, r1 = Ok a → k a = r → no_dangling r → k' a = r) →
  res_bind r1 k = r → no_dangling r → res_bind r1' k' = r.
Proof.
  intros H1 Hk Hr Hnd. destruct r1 as [a|e|f].
  - rewrite H1 by done. cbn in *. by apply Hk.
  - rewrite H1 by done. done.
  - cbn in Hr. subst r. rewrite H1; [done|]. intros l [= ->]. by eapply Hnd.
Qed.

Lemma deref_extends (h h' : Store) q :
  extends h h' → no_dangling (deref h q) → deref h' q = deref h q.
Proof.
  intros [Hq _] Hnd. unfold deref in *.
  destruct (queries h !! q) as [obj|] eqn:Hobj.
  - by rewrite (lookup_weaken _ _ _ _ Hobj Hq).
  - by destruct (Hnd q).
Qed.

Lemma list_read_extends (h h' : Store) l :
  extends h h' → no_dangling (list_read h l) → list_read h' l = list_read h l.
Proof.
  intros [_ Hl] Hnd. unfold list_read in *.
  destruct (lists h !! l) as [cs|] eqn:Hcs.
  - by rewrite (lookup_weaken _ _ _ _ Hcs Hl).
  - by destruct (Hnd l).
Qed.

Lemma with_ctes_extends (h h' : Store) q :
  extends h h' → no_dangling (with_ctes h q) → with_ctes h' q = with_ctes h q.
Proof.
  intros Hext Hnd. unfold with_ctes, getattr_with_ctes in *.
  eapply res_bind_extends; [| |reflexivity|done].
  - intros Hnd'. eapply res_bind_extends; [| |reflexivity|done].
    + by apply deref_extends.
    + by intros obj _ <- _.
  - intros l _ <- Hnd'. by apply list_read_extends.
Qed.

Lemma call_get_compiler_extends (h h' : Store) q using_ connection :
  extends h h' → no_dangling (call_get_compiler h q using_ connection) →
  call_get_compiler h' q using_ connection = call_get_compiler h q using_ connection.
Proof.
  intros Hext Hnd. unfold call_get_compiler in *.
  eapply res_bind_extends; [| |reflexivity|done].
  - by apply deref_extends.
  - intros obj Hobj <- Hnd'.
    destruct (is_CTEQuery (q_class obj)).
    + unfold get_compiler in *.
      eapply res_bind_extends; [| |reflexivity|done]; [by apply deref_extends|].
      by intros obj' _ <- _.
    + unfold host_get_compiler in *.
      eapply res_bind_extends; [| |reflexivity|done]; [by apply deref_extends|].
      by intros obj' _ <- _.
Qed.

Lemma generate_sql_loop_extends (f g : Compiler → res (string * pyseq Param))
    (h h' : Store) connection todo ctes params r :
  extends h h' →
  (∀ c r, f c = r → no_dangling r → g c = r) →
  generate_sql_loop f h connection todo ctes params = r → no_dangling r →
  generate_sql_loop g h' connection todo ctes params = r.
Proof.
  intros Hext Hfg. revert ctes params.
  induction todo as [|cte todo IH]; intros ctes params; [done|].
  cbn [generate_sql_loop]. apply res_bind_extends.
  - intros Hnd. unfold compile_cte in *.
    eapply res_bind_extends; [| |reflexivity|done].
    + by apply call_get_compiler_extends.
    + intros c _. apply Hfg.
  - intros [cte_sql cte_params] _.
    destruct (format _ _); cbn [res_bind]; [apply IH|done..].
Qed.

Lemma generate_sql_with_extends (f g : Compiler → res (string * pyseq Param))
    (h h' : Store) connection q cb r :
  extends h h' →
  (∀ c r, f c = r → no_dangling r → g c = r) →
  generate_sql_with f h connection q cb = r → no_dangling r →
  generate_sql_with g h' connection q cb = r.
Proof.
  intros Hext Hfg. unfold generate_sql_with. apply res_bind_extends.
  - by apply deref_extends.
  - intros obj _. destruct (truthy_opt_str _); [done|].
    apply res_bind_extends; [by apply with_ctes_extends|].
    intros todo _. apply res_bind_extends.
    + intros Hnd. by eapply generate_sql_loop_extends.
    + done.
Qed.

Lemma as_sql_extends (fuel : nat) (h h' : Store) c args r :
  extends h h' → as_sql fuel h c args = r → no_dangling r →
  as_sql fuel h' c args = r.
Proof.
  intros Hext. revert c args r.
  induction fuel as [|fuel IH]; intros c args r; [done|].
  cbn [as_sql]. apply res_bind_extends; [by apply deref_extends|].
  intros obj _. destruct (super_compiler (compiler_class c)) as [base|]; [|done].
  apply generate_sql_with_extends; [done|]. intros c' r'. apply IH.
Qed.

Lemma generate_sql_extends (fuel : nat) (h h' : Store) connection q cb r :
  extends h h' → generate_sql fuel h connection q cb = r → no_dangling r →
  generate_sql fuel h' connection q cb = r.
Proof.
  intros Hext. unfold generate_sql. apply generate_sql_with_extends; [done|].
  intros c r'. by apply as_sql_extends.
Qed.

(** ** Operations one after the other *)

(** X9.  After [__chain], and after any change of the copy's list that
    follows, [generate_sql] answers for every query what it answered
    before: chaining a query and adding CTEs to the copy changes the SQL of
    no query that was there. *)
Theorem chain_leaves_sql (h : Store) self obj ls cs _name klass args st f :
  queries h !! self = Some obj → _with_ctes obj = Some ls → lists h !! ls = Some cs →
  Query_copy _name (q_host obj) (QUERY_TYPES_get klass (q_class obj)) args = Ok st →
  ∃ clone lc h' h'',
    __chain self _name klass args h = (Ok clone, h')
    ∧ carries h' clone lc cs
    ∧ list_mutate f lc h' = (Ok (), h'')
    ∧ carries h'' clone lc (f cs)
    ∧ ∀ fuel connection q as_sql_callback r,
        generate_sql fuel h connection q as_sql_callback = r → no_dangling r →
        generate_sql fuel h' connection q as_sql_callback = r
        ∧ generate_sql fuel h'' connection q as_sql_callback = r.
Proof.
  intros Hself Hls Hcs Hcopy.
  pose proof (fresh_query h) as Hq. pose proof (fresh_list h) as Hl.
  eexists _, (fresh (dom (lists h))), _, _.
  split; [by apply (__chain_run h self obj ls cs)|].
  split.
  { eexists. cbn [queries lists]. rewrite !lookup_insert_eq. done. }
  split.
  { apply list_mutate_run. cbn [lists]. by rewrite lookup_insert_eq. }
  split.
  { eexists. cbn [queries lists]. rewrite !lookup_insert_eq. done. }
  intros fuel connection q cb r Hr Hnd. split.
  - eapply generate_sql_extends; [|done..].
    split; cbn [queries lists]; by apply insert_subseteq.
  - eapply generate_sql_extends; [|done..].
    split; cbn [queries lists]; [by apply insert_subseteq|].
    rewrite insert_insert_eq. by apply insert_subseteq.
Qed.

(** X10.  Once a query without CTEs has taken over those of another
    query, combining it with a further query that carries CTEs raises the
    [TypeError], also when the host's [combine] raised in the first call:
    the CTEs are taken over before the host is asked. *)
Theorem combine_twice (h : Store) self other third s o t ls lo lt co ct
    connector connector' :
  queries h !! self = Some s → _with_ctes s = Some ls → lists h !! ls = Some [] →
  queries h !! other = Some o → _with_ctes o = Some lo → lists h !! lo = Some co →
  queries h !! third = Some t → _with_ctes t = Some lt → lists h !! lt = Some ct →
  co ≠ [] → ct ≠ [] →
  ∃ h',
    combine self other connector h
    = ((Query_combine (q_host s) (q_host o) connector).1, h')
    ∧ combine self third connector' h'
      = (Raise (TypeError "cannot merge queries with CTEs on both sides"), h').
Proof.
  intros Hs Hls Hcs Ho Hlo Hco Ht Hlt Hct Hne Hne'.
  assert (self ≠ third) as Hst by (intros ->; naive_solver).
  eexists. split; [by apply (combine_run_adopt h self other s o ls lo co)|].
  apply (combine_run_both _ self third (fresh (dom (lists h))) lt co ct); [| |done..].
  - eexists. cbn [queries lists]. rewrite !lookup_insert_eq. done.
  - exists t. cbn [queries lists]. rewrite lookup_insert_ne by done.
    rewrite lookup_insert_ne by by eapply fresh_list_ne. done.
Qed.


Lemma get_compiler_connection_host (obj obj' : QueryObj) using_ connection :
  q_host obj = q_host obj' →
  get_compiler_connection obj using_ connection
  = get_compiler_connection obj' using_ connection.
Proof. intros Heq. unfold get_compiler_connection. by rewrite Heq. Qed.

(** X11.  Chaining to an [UpdateQuery] and asking the copy for its
    compiler gives a [CTEUpdateQueryCompiler], which extends the host's
    [SQLUpdateCompiler]; likewise for [DeleteQuery]; for any other class
    asked for, the compiler is the one of the original's class. *)
Theorem chain_then_get_compiler (h : Store) self obj ls cs _name klass args st
    cobj using_ connection conn :
  queries h !! self = Some obj → _with_ctes obj = Some ls → lists h !! ls = Some cs →
  Query_copy _name (q_host obj) (QUERY_TYPES_get klass (q_class obj)) args = Ok st →
  q_host cobj = st →
  get_compiler_connection cobj using_ connection = Ok conn →
  ∃ clone h' c,
    __chain self _name klass args h = (Ok clone, h')
    ∧ get_compiler h' clone using_ connection = Ok c
    ∧ compiler_query c = clone
    ∧ compiler_connection c = conn
    ∧ (klass = Some UpdateQuery →
       compiler_class c = CTEUpdateQueryCompiler
       ∧ super_compiler (compiler_class c) = Some SQLUpdateCompiler)
    ∧ (klass = Some DeleteQuery →
       compiler_class c = CTEDeleteQueryCompiler
       ∧ super_compiler (compiler_class c) = Some SQLDeleteCompiler)
    ∧ (klass ≠ Some UpdateQuery → klass ≠ Some DeleteQuery →
       compiler_class c = spec_compiler_class (q_class obj)).
Proof.
  intros Hself Hls Hcs Hcopy Hst Hconn.
  eexists _, _, _. split; [by apply (__chain_run h self obj ls cs)|].
  unfold get_compiler, deref. cbn [queries]. rewrite lookup_insert_eq.
  cbn [res_bind]. rewrite COMPILER_TYPES_get.
  rewrite (get_compiler_connection_host _ cobj) by done.
  rewrite Hconn. cbn [res_bind compiler_query compiler_class compiler_connection q_class].
  split; [done|]. split; [done|]. split; [done|].
  split_and!.
  - by intros ->.
  - by intros ->.
  - intros Hu Hd. by rewrite QUERY_TYPES_get_other.
Qed.

(** X16.  The copy that [__chain] answers compiles as the original does:
    with the same wrapped [as_sql], and the combinator as it was,
    [generate_sql] answers for the copy what it answers for the
    original. *)
Theorem chain_same_sql (h : Store) self obj ls cs _name klass args st
    fuel connection as_sql_callback r :
  queries h !! self = Some obj → _with_ctes obj = Some ls → lists h !! ls = Some cs →
  Query_copy _name (q_host obj) (QUERY_TYPES_get klass (q_class obj)) args = Ok st →
  truthy_opt_str (combinator st) = truthy_opt_str (combinator (q_host obj)) →
  generate_sql fuel h connection self as_sql_callback = r → no_dangling r →
  ∃ clone h',
    __chain self _name klass args h = (Ok clone, h')
    ∧ generate_sql fuel h' connection clone as_sql_callback = r.
Proof.
  intros Hself Hls Hcs Hcopy Hcomb Hr Hnd.
  pose proof (fresh_query h) as Hq. pose proof (fresh_list h) as Hl.
  eexists _, _. split; [by apply (__chain_run h self obj ls cs)|].
  set (h' := {| queries := _; lists := _ |}).
  assert (extends h h') as Hext.
  { split; unfold h'; cbn [queries lists]; by apply insert_subseteq. }
  assert (with_ctes h self = Ok cs) as Hwith.
  { apply (with_ctes_carries _ _ ls). by exists obj. }
  assert (with_ctes h' (fresh (dom (queries h))) = Ok cs) as Hwith'.
  { apply (with_ctes_carries _ _ (fresh (dom (lists h)))). eexists.
    unfold h'. cbn [queries lists]. rewrite !lookup_insert_eq. done. }
  assert (queries h' !! fresh (dom (queries h))
          = Some {| q_class := QUERY_TYPES_get klass (q_class obj); q_host := st;
                    _with_ctes := Some (fresh (dom (lists h))) |}) as Hclone.
  { unfold h'. cbn [queries]. apply lookup_insert_eq. }
  revert Hr. unfold generate_sql, generate_sql_with, deref.
  rewrite Hself, Hclone. cbn [res_bind q_host].
  rewrite Hcomb. destruct (truthy_opt_str (combinator (q_host obj))); [done|].
  rewrite Hwith, Hwith'. cbn [res_bind].
  intros Hr. eapply res_bind_extends; [| |exact Hr|exact Hnd].
  - intros Hnd'. eapply generate_sql_loop_extends; [exact Hext| |reflexivity|done].
    intros c r'. by apply as_sql_extends.
  - by intros a _ <- _.
Qed.

End MoreProperties.

(** ** from_query *)

Section FromQueryProperties.
Context `{HostAttrs}.

Lemma copy_host_not_in (other : QState) attrs (st : QState) a :
  a ∉ attrs → host_getattr (copy_host other attrs st) a = host_getattr st a.
Proof.
  unfold copy_host. revert st. induction attrs as [|b attrs IH]; intros st Hnin; [done|].
  apply not_elem_of_cons in Hnin as [Hne Hnin]. cbn [foldl].
  rewrite IH by done. destruct (host_getattr other b); [|done].
  by apply host_getattr_setattr_ne.
Qed.

Lemma copy_host_in (other : QState) attrs (st : QState) a :
  a ∈ attrs → is_Some (host_getattr other a) →
  host_getattr (copy_host other attrs st) a = host_getattr other a.
Proof.
  unfold copy_host. revert st. induction attrs as [|b attrs IH]; intros st Hin Hsome.
  { by apply elem_of_nil in Hin. }
  cbn [foldl]. destruct (decide (a ∈ attrs)) as [Hin'|Hnin]; [by apply IH|].
  apply elem_of_cons in Hin as [->|?]; [|done].
  fold (copy_host other attrs
          match host_getattr other b with
          | Some v => host_setattr st b v
          | None => st
          end).
  rewrite copy_host_not_in by done.
  destruct Hsome as [v Hv]. rewrite Hv. apply host_getattr_setattr.
Qed.

Lemma getattr_host_Some (h : Store) q obj a v :
  queries h !! q = Some obj → host_getattr (q_host obj) a = Some v →
  getattr_host h q a = Ok v.
Proof. intros Hq Ha. unfold getattr_host, deref. rewrite Hq. cbn. by rewrite Ha. Qed.

Lemma getattr_host_None (h : Store) q obj a :
  queries h !! q = Some obj → host_getattr (q_host obj) a = None →
  getattr_host h q a = Raise (AttributeError a).
Proof. intros Hq Ha. unfold getattr_host, deref. rewrite Hq. cbn. by rewrite Ha. Qed.

Lemma setattr_host_run (h : Store) q obj a v :
  queries h !! q = Some obj →
  setattr_host q a v h
  = (Ok (), {| queries := <[q := {| q_class := q_class obj;
                                   q_host := host_setattr (q_host obj) a v;
                                   _with_ctes := _with_ctes obj |}]> (queries h);
              lists := lists h |}).
Proof.
  intros Hq. unfold setattr_host.
  rewrite (bind_read _ _ _ obj) by by apply deref_Some.
  by apply set_host_run.
Qed.

(** The assignments up to the first name that [other] has not got. *)
Lemma copy_attrs_run (h : Store) new other k st l o attrs :
  new ≠ other →
  queries h !! new = Some {| q_class := k; q_host := st; _with_ctes := l |} →
  queries h !! other = Some o →
  Forall (λ a, is_Some (host_getattr (q_host o) a)) attrs →
  copy_attrs new other attrs h
  = (Ok (),
     {| queries := <[new := {| q_class := k;
                              q_host := copy_host (q_host o) attrs st;
                              _with_ctes := l |}]> (queries h);
        lists := lists h |}).
Proof.
  intros Hne Hnew Hother Hall. revert h st Hnew Hother.
  induction Hall as [|a attrs [v Hv] _ IH]; intros h st Hnew Hother.
  - cbn. unfold ret. rewrite insert_id by done. by destruct h.
  - cbn [copy_attrs].
    rewrite (bind_read _ _ _ v) by by eapply getattr_host_Some.
    erewrite bind_Ok by by apply setattr_host_run.
    cbn [q_class q_host _with_ctes].
    rewrite (IH _ (host_setattr st a v)); cbn [queries lists].
    + rewrite insert_insert_eq. unfold copy_host. cbn [foldl]. by rewrite Hv.
    + by rewrite lookup_insert_eq.
    + by rewrite lookup_insert_ne.
Qed.

Lemma copy_attrs_missing (h : Store) new other k st l o pre a post :
  new ≠ other →
  queries h !! new = Some {| q_class := k; q_host := st; _with_ctes := l |} →
  queries h !! other = Some o →
  Forall (λ a, is_Some (host_getattr (q_host o) a)) pre →
  host_getattr (q_host o) a = None →
  copy_attrs new other (pre ++ a :: post) h
  = (Raise (AttributeError a),
     {| queries := <[new := {| q_class := k;
                              q_host := copy_host (q_host o) pre st;
                              _with_ctes := l |}]> (queries h);
        lists := lists h |}).
Proof.
  intros Hne Hnew Hother Hall Hnone. revert h st Hnew Hother.
  induction Hall as [|b pre [v Hv] _ IH]; intros h st Hnew Hother.
  - cbn [app copy_attrs]. unfold bind, read.
    rewrite (getattr_host_None _ _ o) by done.
    cbn. rewrite insert_id by done. by destruct h.
  - cbn [app copy_attrs].
    rewrite (bind_read _ _ _ v) by by eapply getattr_host_Some.
    erewrite bind_Ok by by apply setattr_host_run.
    cbn [q_class q_host _with_ctes].
    rewrite (IH _ (host_setattr st b v)); cbn [queries lists].
    + rewrite insert_insert_eq. unfold copy_host. cbn [foldl]. by rewrite Hv.
    + by rewrite lookup_insert_eq.
    + by rewrite lookup_insert_ne.
Qed.

Lemma from_query_run (h : Store) cls other o m w st0 :
  queries h !! other = Some o →
  host_getattr (q_host o) "model" = Some m →
  host_getattr (q_host o) "where_class" = Some w →
  is_CTEQuery cls = true →
  Query__init__ cls (init_kwargs m w) = Ok st0 →
  Forall (λ a, is_Some (host_getattr (q_host o) a)) from_query_attrs →
  from_query cls other h
  = (Ok (fresh (dom (queries h))),
     {| queries := <[fresh (dom (queries h)) :=
                       {| q_class := cls;
                          q_host := copy_host (q_host o) from_query_attrs st0;
                          _with_ctes := Some (fresh (dom (lists h))) |}]> (queries h);
        lists := <[fresh (dom (lists h)) := []]> (lists h) |}).
Proof.
  intros Hother Hm Hw Hcls Hinit Hall. unfold from_query.
  rewrite (bind_read _ _ _ m) by by eapply getattr_host_Some.
  rewrite (bind_read _ _ _ w) by by eapply getattr_host_Some.
  erewrite bind_Ok by by apply construct_run.
  pose proof (fresh_query_ne _ _ _ Hother) as Hne.
  erewrite bind_Ok; last first.
  { apply (copy_attrs_run _ _ other cls st0 (Some (fresh (dom (lists h)))) o);
      [done| | |done]; cbn [queries].
    - by rewrite lookup_insert_eq.
    - by rewrite lookup_insert_ne. }
  cbn [queries lists]. unfold ret. by rewrite insert_insert_eq.
Qed.

(** X12.  [from_query] answers a new query object that carries a new,
    empty list, whatever the other query carries: the CTEs of the other
    query are not taken over.  Every query that was there carries what it
    carried, in a list object that is not the new one. *)
Theorem from_query_fresh_list (h : Store) cls other o m w st0 :
  wf h →
  queries h !! other = Some o →
  host_getattr (q_host o) "model" = Some m →
  host_getattr (q_host o) "where_class" = Some w →
  is_CTEQuery cls = true →
  Query__init__ cls (init_kwargs m w) = Ok st0 →
  Forall (λ a, is_Some (host_getattr (q_host o) a)) from_query_attrs →
  ∃ new l h',
    from_query cls other h = (Ok new, h')
    ∧ new ≠ other
    ∧ carries h' new l []
    ∧ lists h !! l = None
    ∧ (∀ q0 l0 cs0, carries h q0 l0 cs0 → carries h' q0 l0 cs0 ∧ l0 ≠ l)
    ∧ wf h'.
Proof.
  intros Hwf Hother Hm Hw Hcls Hinit Hall.
  eexists _, (fresh (dom (lists h))), _.
  split; [by eapply from_query_run|].
  split; [by eapply fresh_query_ne|].
  split_and!.
  - eexists. cbn [queries lists]. rewrite !lookup_insert_eq. done.
  - apply fresh_list.
  - intros q0 l0 cs0 (obj0 & Hq0 & Hl0 & Hcs0).
    pose proof (fresh_list_ne _ _ _ Hcs0) as Hne. split; [|done].
    exists obj0. cbn [queries lists].
    rewrite !lookup_insert_ne; [done|done|]. by eapply fresh_query_ne.
  - by apply wf_insert_both.
Qed.

(** X13.  After [from_query], every attribute that it assigns reads the
    same on the new query as on the other one, the other query is as it
    was, and every attribute that it does not assign ([combinator], for
    one) is as the constructor left it. *)
Theorem from_query_copies_attributes (h : Store) cls other o m w st0 :
  queries h !! other = Some o →
  host_getattr (q_host o) "model" = Some m →
  host_getattr (q_host o) "where_class" = Some w →
  is_CTEQuery cls = true →
  Query__init__ cls (init_kwargs m w) = Ok st0 →
  Forall (λ a, is_Some (host_getattr (q_host o) a)) from_query_attrs →
  ∃ new nobj h',
    from_query cls other h = (Ok new, h')
    ∧ queries h' !! new = Some nobj
    ∧ queries h' !! other = Some o
    ∧ q_class nobj = cls
    ∧ (∀ a, a ∈ from_query_attrs →
         getattr_host h' new a = getattr_host h' other a
         ∧ host_getattr (q_host nobj) a = host_getattr (q_host o) a)
    ∧ (∀ a, a ∉ from_query_attrs →
         host_getattr (q_host nobj) a = host_getattr st0 a).
Proof.
  intros Hother Hm Hw Hcls Hinit Hall.
  pose proof (fresh_query_ne _ _ _ Hother) as Hne.
  eexists _, _, _.
  split; [by eapply from_query_run|].
  cbn [queries]. rewrite lookup_insert_eq, lookup_insert_ne by done.
  split; [done|]. split; [done|]. split; [done|]. cbn [q_host].
  split.
  - intros a Hin.
    assert (host_getattr (copy_host (q_host o) from_query_attrs st0) a
            = host_getattr (q_host o) a) as Heq.
    { apply copy_host_in; [done|]. by eapply Forall_forall in Hall. }
    split; [|done].
    unfold getattr_host, deref. cbn [queries].
    rewrite lookup_insert_eq, lookup_insert_ne by done. rewrite Hother.
    cbn [res_bind q_host]. by rewrite Heq.
  - intros a Hnin. by apply copy_host_not_in.
Qed.

(** X14.  [from_query] on a query without [model], or with [model] and
    without [where_class], raises [AttributeError] for that name before
    anything is constructed: the store is as it was.  When the first
    attribute that the other query has not got comes later in the
    assignments, [from_query] raises [AttributeError] for it, and the other
    query is as it was. *)
Theorem from_query_missing_attribute (h : Store) cls other o :
  queries h !! other = Some o →
  (host_getattr (q_host o) "model" = None →
   from_query cls other h = (Raise (AttributeError "model"), h))
  ∧ (∀ m, host_getattr (q_host o) "model" = Some m →
          host_getattr (q_host o) "where_class" = None →
          from_query cls other h = (Raise (AttributeError "where_class"), h))
  ∧ (∀ m w st0 pre a post,
       host_getattr (q_host o) "model" = Some m →
       host_getattr (q_host o) "where_class" = Some w →
       is_CTEQuery cls = true →
       Query__init__ cls (init_kwargs m w) = Ok st0 →
       from_query_attrs = pre ++ a :: post →
       Forall (λ a, is_Some (host_getattr (q_host o) a)) pre →
       host_getattr (q_host o) a = None →
       (from_query cls other h).1 = Raise (AttributeError a)
       ∧ queries (from_query cls other h).2 !! other = Some o).
Proof.
  intros Hother. split_and!.
  - intros Hm. unfold from_query, bind, read.
    by rewrite (getattr_host_None _ _ o).
  - intros m Hm Hw. unfold from_query.
    rewrite (bind_read _ _ _ m) by by eapply getattr_host_Some.
    unfold bind, read. by rewrite (getattr_host_None _ _ o).
  - intros m w st0 pre a post Hm Hw Hcls Hinit Hattrs Hpre Hnone.
    pose proof (fresh_query_ne _ _ _ Hother) as Hne.
    unfold from_query.
    rewrite (bind_read _ _ _ m) by by eapply getattr_host_Some.
    rewrite (bind_read _ _ _ w) by by eapply getattr_host_Some.
    erewrite bind_Ok by by apply construct_run.
    rewrite Hattrs.
    erewrite bind_Raise; last first.
    { apply (copy_attrs_missing _ _ other cls st0 (Some (fresh (dom (lists h)))) o);
        [done| | |done..]; cbn [queries].
      - by rewrite lookup_insert_eq.
      - by rewrite lookup_insert_ne. }
    cbn [fst snd queries]. split; [done|].
    by rewrite !lookup_insert_ne.
Qed.

End FromQueryProperties.

(** * The further theorems at work *)

Lemma chain_class_witness :
  ∃ clone cobj h',
    chain 1%positive (Some UpdateQuery) toy_store = (Ok clone, h')
    ∧ queries h' !! clone = Some cobj
    ∧ q_class cobj = CTEUpdateQuery.
Proof.
  destruct (chain_class toy_store 1%positive
              (toy_obj CTEQuery "SELECT * FROM a, b" [7] None (Some 1%positive))
              1%positive
              [ {| name := "a"; query := 2%positive |};
                {| name := "b"; query := 3%positive |} ]
              "chain" (Some UpdateQuery) no_args
              {| toy_sql := "SELECT * FROM a, b"; toy_params := [7];
                 toy_combinator := None |})
    as (clone & cobj & h' & Hrun & Hclone & _ & Hupdate & _).
  - vm_compute. reflexivity.
  - reflexivity.
  - vm_compute. reflexivity.
  - reflexivity.
  - exists clone, cobj, h'. split; [assumption|]. split; [assumption|].
    apply Hupdate. reflexivity.
Defined.

Lemma get_compiler_without_connection_witness :
  get_compiler toy_store 1%positive None None
  = Raise (ValueError "Need either using or connection").
Proof.
  refine (proj1 (get_compiler_without_connection toy_store 1%positive
                   (toy_obj CTEQuery "SELECT * FROM a, b" [7] None (Some 1%positive))
                   _)).
  vm_compute. reflexivity.
Defined.

Lemma get_compiler_using_wins_witness :
  get_compiler toy_store 1%positive (Some "default") (Some "replica")
  = get_compiler toy_store 1%positive (Some "default") None.
Proof.
  refine (proj1 (get_compiler_using_wins toy_store 1%positive
                   (toy_obj CTEQuery "SELECT * FROM a, b" [7] None (Some 1%positive))
                   "default" (Some "replica") _ _)).
  - vm_compute. reflexivity.
  - reflexivity.
Defined.

Lemma get_compiler_checks_annotations_witness :
  @get_compiler attr_host attr_store 2%positive None (Some "default")
  = Raise (HostError "NotSupportedError").
Proof.
  refine (proj2 (@get_compiler_checks_annotations attr_host attr_store 2%positive
                   (attr_obj CTEQuery [("sql", "SELECT 2"); ("annotation", "unsupported")]
                      (Some 2%positive))
                   "default" _)
                [] "total" "unsupported" [] (HostError "NotSupportedError") _ _ _).
  - vm_compute. reflexivity.
  - vm_compute. reflexivity.
  - constructor.
  - reflexivity.
Defined.

Lemma as_sql_transparent_witness :
  res_map (λ r, (r.1, items r.2))
    (as_sql 1 toy_store
       (@Build_Compiler toy_host CTEQueryCompiler 2%positive (Some "default") None)
       [])
  = Ok ("SELECT x", [1; 2]).
Proof.
  refine (proj2 (as_sql_transparent 0 toy_store
                   (@Build_Compiler toy_host CTEQueryCompiler 2%positive
                      (Some "default") None)
                   (toy_obj CTEQuery "SELECT x" [1; 2] None (Some 2%positive))
                   SQLCompiler [] _ _) _).
  - vm_compute. reflexivity.
  - reflexivity.
  - vm_compute. reflexivity.
Defined.

Lemma generate_sql_body_error_witness :
  @generate_sql attr_host 1 attr_store (Some "default") 1%positive
    (λ _, Ok ("SELECT * FROM first, tree", PyTuple []))
  = Raise (HostError "NotSupportedError").
Proof.
  refine (@generate_sql_body_error attr_host 1 attr_store (Some "default") 1%positive
            (attr_obj CTEQuery
               (("model", "Node") :: ("sql", "SELECT * FROM first, tree")
                  :: ((λ a, (a, a)) <$> from_query_attrs))
               (Some 1%positive))
            [ {| name := "first"; query := 3%positive |} ]
            [ ("SELECT 3", PyTuple []) ]
            {| name := "tree"; query := 2%positive |} []
            (HostError "NotSupportedError") _ _ _ _ _ _).
  - vm_compute. reflexivity.
  - vm_compute. reflexivity.
  - vm_compute. reflexivity.
  - repeat (constructor; [vm_compute; reflexivity|]). constructor.
  - vm_compute. reflexivity.
Defined.

Lemma combine_other_without_ctes_attribute_witness :
  combine 1%positive 3%positive "AND" toy_store
  = (Raise (AttributeError "_with_ctes"), toy_store).
Proof.
  refine (combine_other_without_ctes_attribute toy_store 1%positive 3%positive
            (toy_obj Query "SELECT y" [3] None None) "AND" _ _).
  - vm_compute. reflexivity.
  - reflexivity.
Defined.

Lemma shim_keeps_wf_witness :
  wf (combine 2%positive 1%positive "AND" toy_store).2.
Proof.
  refine (proj1 (shim_keeps_wf toy_store _) 2%positive 1%positive "AND").
  apply (bool_decide_unpack _). vm_compute. reflexivity.
Defined.

Lemma chain_leaves_sql_witness :
  ∃ clone lc h' h'',
    chain 1%positive None toy_store = (Ok clone, h')
    ∧ list_mutate (λ cs, cs ++ [ {| name := "e"; query := 3%positive |} ]) lc h'
      = (Ok (), h'')
    ∧ generate_sql 2 h'' (Some "default") 1%positive toy_callback
      = Ok ("WITH RECURSIVE a AS (SELECT x), b AS (SELECT y) SELECT * FROM a, b",
            PyTuple [1; 2; 3; 7]).
Proof.
  destruct (chain_leaves_sql toy_store 1%positive
              (toy_obj CTEQuery "SELECT * FROM a, b" [7] None (Some 1%positive))
              1%positive
              [ {| name := "a"; query := 2%positive |};
                {| name := "b"; query := 3%positive |} ]
              "chain" None no_args
              {| toy_sql := "SELECT * FROM a, b"; toy_params := [7];
                 toy_combinator := None |}
              (λ cs, cs ++ [ {| name := "e"; query := 3%positive |} ]))
    as (clone & lc & h' & h'' & Hrun & _ & Hmut & _ & Hsql).
  - vm_compute. reflexivity.
  - reflexivity.
  - vm_compute. reflexivity.
  - reflexivity.
  - exists clone, lc, h', h''. split; [assumption|]. split; [assumption|].
    refine (proj2 (Hsql 2 (Some "default") 1%positive toy_callback _ _ _)).
    + vm_compute. reflexivity.
    + intros l. discriminate.
Defined.

Lemma combine_twice_witness :
  ∃ h',
    combine 2%positive 1%positive "AND" toy_store = (Ok (), h')
    ∧ combine 2%positive 5%positive "OR" h'
      = (Raise (TypeError "cannot merge queries with CTEs on both sides"), h').
Proof.
  refine (combine_twice toy_store 2%positive 1%positive 5%positive
            (toy_obj CTEQuery "SELECT x" [1; 2] None (Some 2%positive))
            (toy_obj CTEQuery "SELECT * FROM a, b" [7] None (Some 1%positive))
            (toy_obj CTEUpdateQuery "UPDATE t SET v = %s" [9] None (Some 5%positive))
            2%positive 1%positive 5%positive
            [ {| name := "a"; query := 2%positive |};
              {| name := "b"; query := 3%positive |} ]
            [ {| name := "d"; query := 3%positive |} ]
            "AND" "OR" _ _ _ _ _ _ _ _ _ _ _);
    first [vm_compute; reflexivity | discriminate].
Defined.

Lemma chain_then_get_compiler_witness :
  ∃ clone h' c,
    chain 1%positive (Some DeleteQuery) toy_store = (Ok clone, h')
    ∧ get_compiler h' clone None (Some "default") = Ok c
    ∧ compiler_class c = CTEDeleteQueryCompiler.
Proof.
  destruct (chain_then_get_compiler toy_store 1%positive
              (toy_obj CTEQuery "SELECT * FROM a, b" [7] None (Some 1%positive))
              1%positive
              [ {| name := "a"; query := 2%positive |};
                {| name := "b"; query := 3%positive |} ]
              "chain" (Some DeleteQuery) no_args
              {| toy_sql := "SELECT * FROM a, b"; toy_params := [7];
                 toy_combinator := None |}
              (toy_obj CTEDeleteQuery "SELECT * FROM a, b" [7] None None)
              None (Some "default") (Some "default"))
    as (clone & h' & c & Hrun & Hget & _ & _ & _ & Hdelete & _).
  - vm_compute. reflexivity.
  - reflexivity.
  - vm_compute. reflexivity.
  - reflexivity.
  - reflexivity.
  - reflexivity.
  - exists clone, h', c. split; [assumption|]. split; [assumption|].
    apply Hdelete. reflexivity.
Defined.

Lemma chain_same_sql_witness :
  ∃ clone h',
    chain 1%positive None toy_store = (Ok clone, h')
    ∧ generate_sql 2 h' (Some "default") clone toy_callback
      = Ok ("WITH RECURSIVE a AS (SELECT x), b AS (SELECT y) SELECT * FROM a, b",
            PyTuple [1; 2; 3; 7]).
Proof.
  refine (chain_same_sql toy_store 1%positive
            (toy_obj CTEQuery "SELECT * FROM a, b" [7] None (Some 1%positive))
            1%positive
            [ {| name := "a"; query := 2%positive |};
              {| name := "b"; query := 3%positive |} ]
            "chain" None no_args
            {| toy_sql := "SELECT * FROM a, b"; toy_params := [7];
               toy_combinator := None |}
            2 (Some "default") toy_callback _ _ _ _ _ _ _ _).
  - vm_compute. reflexivity.
  - reflexivity.
  - vm_compute. reflexivity.
  - reflexivity.
  - reflexivity.
  - vm_compute. reflexivity.
  - intros l. discriminate.
Defined.

Lemma from_query_fresh_list_witness :
  ∃ new l h',
    @from_query attr_host attr_attrs CTEQuery 1%positive attr_store = (Ok new, h')
    ∧ carries h' new l []
    ∧ carries h' 1%positive 1%positive
        [ {| name := "first"; query := 3%positive |};
          {| name := "tree"; query := 2%positive |} ].
Proof.
  destruct (@from_query_fresh_list attr_host attr_attrs attr_store CTEQuery 1%positive
              (attr_obj CTEQuery
               (("model", "Node") :: ("sql", "SELECT * FROM first, tree")
                  :: ((λ a, (a, a)) <$> from_query_attrs))
               (Some 1%positive))
              "Node" "where_class"
              [("model", "Node"); ("where", "where_class")])
    as (new & l & h' & Hrun & _ & Hnew & _ & Hold & _).
  - apply (bool_decide_unpack _). vm_compute. reflexivity.
  - vm_compute. reflexivity.
  - vm_compute. reflexivity.
  - vm_compute. reflexivity.
  - reflexivity.
  - reflexivity.
  - apply (bool_decide_unpack _). vm_compute. reflexivity.
  - exists new, l, h'. split; [assumption|]. split; [assumption|].
    apply Hold. eexists. vm_compute. repeat split; reflexivity.
Defined.

Lemma from_query_copies_attributes_witness :
  ∃ new nobj h',
    @from_query attr_host attr_attrs CTEQuery 1%positive attr_store = (Ok new, h')
    ∧ queries h' !! new = Some nobj
    ∧ dict_lookup (q_host nobj) "model" = Some "Node"
    ∧ dict_lookup (q_host nobj) "sql" = None.
Proof.
  destruct (@from_query_copies_attributes attr_host attr_attrs attr_store CTEQuery
              1%positive
              (attr_obj CTEQuery
               (("model", "Node") :: ("sql", "SELECT * FROM first, tree")
                  :: ((λ a, (a, a)) <$> from_query_attrs))
               (Some 1%positive))
              "Node" "where_class"
              [("model", "Node"); ("where", "where_class")])
    as (new & nobj & h' & Hrun & Hnew & _ & _ & Hin & Hnin).
  - vm_compute. reflexivity.
  - vm_compute. reflexivity.
  - vm_compute. reflexivity.
  - reflexivity.
  - reflexivity.
  - apply (bool_decide_unpack _). vm_compute. reflexivity.
  - exists new, nobj, h'. split; [assumption|]. split; [assumption|]. split.
    + refine (eq_trans (proj2 (Hin "model" _)) _).
      * apply (bool_decide_unpack _). vm_compute. reflexivity.
      * vm_compute. reflexivity.
    + refine (eq_trans (Hnin "sql" _) _).
      * apply (bool_decide_unpack _). vm_compute. reflexivity.
      * vm_compute. reflexivity.
Defined.

Lemma from_query_missing_attribute_witness :
  @from_query attr_host attr_attrs CTEQuery 2%positive attr_store
  = (Raise (AttributeError "model"), attr_store).
Proof.
  refine (proj1 (@from_query_missing_attribute attr_host attr_attrs attr_store
                   CTEQuery 2%positive
                   (attr_obj CTEQuery [("sql", "SELECT 2"); ("annotation", "unsupported")]
                      (Some 2%positive))
                   _) _).
  - vm_compute. reflexivity.
  - vm_compute. reflexivity.
Defined.

(** * The errors of the shim *)

Section OwnErrors.
Context `{HostAttrs}.

Lemma combine_Raise (h : Store) self other s o connector e :
  queries h !! self = Some s → queries h !! other = Some o →
  (combine self other connector h).1 = Raise e →
  (e = TypeError "cannot merge queries with CTEs on both sides"
   ∧ ∃ ls lo cs co, carries h self ls cs ∧ carries h other lo co
                    ∧ cs ≠ [] ∧ co ≠ [])
  ∨ (e = AttributeError "_with_ctes"
     ∧ (_with_ctes o = None ∨ _with_ctes s = None))
  ∨ (Query_combine (q_host s) (q_host o) connector).1 = Raise e.
Proof.
  intros Hs Ho.
  destruct (_with_ctes o) as [lo|] eqn:Hlo; last first.
  { unfold combine, bind, read, with_ctes, getattr_with_ctes, deref.
    rewrite Ho. cbn. rewrite Hlo. cbn. intros [= <-]. right. left. auto. }
  destruct (lists h !! lo) as [co|] eqn:Hco; last first.
  { unfold combine, bind, read, with_ctes, getattr_with_ctes, deref, list_read.
    rewrite Ho. cbn. rewrite Hlo. cbn. by rewrite Hco. }
  destruct (decide (co = [])) as [->|Hne].
  { rewrite (combine_run_keep h self other s o lo) by done. cbn [fst]. auto. }
  destruct (_with_ctes s) as [ls|] eqn:Hls; last first.
  { unfold combine. rewrite (bind_read _ _ _ co)
      by (apply (with_ctes_carries _ _ lo); by exists o).
    destruct co; [done|]. cbn [truthy_list when].
    unfold bind, read, with_ctes, getattr_with_ctes, deref. rewrite Hs. cbn.
    rewrite Hls. cbn. intros [= <-]. right. left. auto. }
  destruct (lists h !! ls) as [cs|] eqn:Hcs; last first.
  { unfold combine. rewrite (bind_read _ _ _ co)
      by (apply (with_ctes_carries _ _ lo); by exists o).
    destruct co; [done|]. cbn [truthy_list when].
    unfold bind, read, with_ctes, getattr_with_ctes, deref, list_read.
    rewrite Hs. cbn. rewrite Hls. cbn. by rewrite Hcs. }
  destruct (decide (cs = [])) as [->|Hne'].
  - rewrite (combine_run_adopt h self other s o ls lo co) by done. cbn [fst]. auto.
  - rewrite (combine_run_both h self other ls lo cs co); [|by eexists..|done|done].
    cbn. intros [= <-]. left. split; [done|].
    exists ls, lo, cs, co. split_and!; [by exists s|by exists o|done|done].
Qed.

Lemma generate_sql_Raise_any fuel (h : Store) connection q obj cb e :
  queries h !! q = Some obj →
  generate_sql fuel h connection q cb = Raise e →
  cb () = Raise e
  ∨ (_with_ctes obj = None ∧ e = AttributeError "_with_ctes")
  ∨ ∃ todo cte, with_ctes h q = Ok todo ∧ cte ∈ todo
       ∧ compile_cte (λ c, as_sql fuel h c no_args) h connection cte = Raise e.
Proof.
  intros Hq Hraise.
  destruct (with_ctes h q) as [todo|e'|f] eqn:Htodo.
  - destruct (generate_sql_Raise fuel h connection q todo cb e Htodo Hraise)
      as [?|(cte & ? & ?)]; [by left|].
    right. right. by exists todo, cte.
  - revert Hraise Htodo. unfold generate_sql, generate_sql_with, with_ctes,
      getattr_with_ctes, deref, list_read.
    rewrite Hq. cbn [res_bind].
    destruct (truthy_opt_str _); [by left|].
    destruct (_with_ctes obj) as [l|]; cbn [res_bind].
    + by destruct (lists h !! l).
    + intros [= <-] _. right. by left.
  - revert Hraise. unfold generate_sql, generate_sql_with, deref.
    rewrite Hq. cbn [res_bind].
    destruct (truthy_opt_str _); [by left|]. by rewrite Htodo.
Qed.

Lemma construct_Ok (h h' : Store) cls args q :
  construct cls args h = (Ok q, h') →
  q = fresh (dom (queries h))
  ∧ ∃ obj, queries h' = <[q := obj]> (queries h).
Proof.
  unfold construct, __init__.
  destruct (is_CTEQuery cls); unfold bind at 1, lift;
    destruct (Query__init__ cls args) as [st| |]; try done.
  - erewrite bind_Ok by apply list_new_run. rewrite object_new_run.
    intros [= <- <-]. split; [done|]. by eexists.
  - rewrite object_new_run. intros [= <- <-]. split; [done|]. by eexists.
Qed.

Lemma copy_attrs_Raise (h : Store) new other o attrs e :
  new ≠ other → is_Some (queries h !! new) → queries h !! other = Some o →
  (copy_attrs new other attrs h).1 = Raise e →
  ∃ a, a ∈ attrs ∧ host_getattr (q_host o) a = None ∧ e = AttributeError a.
Proof.
  intros Hne. revert h. induction attrs as [|a attrs IH]; intros h [nobj Hnew] Hother;
    [done|].
  cbn [copy_attrs].
  destruct (host_getattr (q_host o) a) as [v|] eqn:Ha.
  - rewrite (bind_read _ _ _ v) by by eapply getattr_host_Some.
    erewrite bind_Ok by by apply setattr_host_run.
    intros (a' & Hin & Ha' & ->)%IH.
    + exists a'. split; [by right|done].
    + cbn [queries]. rewrite lookup_insert_eq. by eexists.
    + cbn [queries]. by rewrite lookup_insert_ne.
  - unfold bind, read. rewrite (getattr_host_None _ _ o) by done.
    cbn. intros [= <-]. exists a. split; [by left|done].
Qed.

Lemma from_query_Raise (h : Store) cls other o e :
  queries h !! other = Some o →
  (from_query cls other h).1 = Raise e →
  (∃ a, a ∈ from_query_attrs ∧ host_getattr (q_host o) a = None
        ∧ e = AttributeError a)
  ∨ ∃ model where_class,
      Query__init__ cls (init_kwargs model where_class) = Raise e.
Proof.
  intros Hother. unfold from_query.
  destruct (host_getattr (q_host o) "model") as [m|] eqn:Hm; last first.
  { unfold bind, read. rewrite (getattr_host_None _ _ o) by done.
    cbn. intros [= <-]. left. exists "model". split; [|done].
    apply (bool_decide_unpack _). by vm_compute. }
  rewrite (bind_read _ _ _ m) by by eapply getattr_host_Some.
  destruct (host_getattr (q_host o) "where_class") as [w|] eqn:Hw; last first.
  { unfold bind, read. rewrite (getattr_host_None _ _ o) by done.
    cbn. intros [= <-]. left. exists "where_class". split; [|done].
    apply (bool_decide_unpack _). by vm_compute. }
  rewrite (bind_read _ _ _ w) by by eapply getattr_host_Some.
  destruct (construct cls (init_kwargs m w) h) as [[new|e'|f] h1] eqn:Hnew.
  - destruct (construct_Ok _ _ _ _ _ Hnew) as [-> [nobj Hh1]].
    pose proof (fresh_query_ne _ _ _ Hother) as Hne.
    erewrite bind_Ok by done.
    destruct (copy_attrs (fresh (dom (queries h))) other from_query_attrs h1)
      as [[[]|e'|f] h2] eqn:Hcopy.
    + erewrite bind_Ok by done. done.
    + erewrite bind_Raise by done. cbn. intros [= <-]. left.
      apply (copy_attrs_Raise h1 (fresh (dom (queries h))) other o);
        [done| | |by rewrite Hcopy].
      * rewrite Hh1, lookup_insert_eq. by eexists.
      * by rewrite Hh1, lookup_insert_ne.
    + unfold bind. by rewrite Hcopy.
  - erewrite bind_Raise by done. cbn. intros [= <-]. right. exists m, w.
    apply (construct_Raise h). by rewrite Hnew.
  - unfold bind. by rewrite Hnew.
Qed.

(** C3.  Two queries that both carry a non-empty CTE list: [combine]
    raises the [TypeError].  It is not all that the shim raises of its own.
    Whatever [combine], [get_compiler], [__chain], [generate_sql], a
    constructor or [from_query] raises is that [TypeError], on two
    non-empty lists; or an [AttributeError] for an attribute that an object
    has not got ([_with_ctes] in [combine], [__chain] and [generate_sql],
    [ops] of no connection in [get_compiler], a name that [from_query]
    reads); or the [ValueError] of [get_compiler] without alias and
    connection; or what the host, the wrapped [as_sql] or the compilation
    of a body raised. *)
Theorem shim_own_errors (h : Store) self other s o connector :
  queries h !! self = Some s → queries h !! other = Some o →
  (∀ ls lo cs co,
     carries h self ls cs → carries h other lo co → cs ≠ [] → co ≠ [] →
     (combine self other connector h).1
     = Raise (TypeError "cannot merge queries with CTEs on both sides"))
  ∧ (∀ e, (combine self other connector h).1 = Raise e →
       (e = TypeError "cannot merge queries with CTEs on both sides"
        ∧ ∃ ls lo cs co, carries h self ls cs ∧ carries h other lo co
                         ∧ cs ≠ [] ∧ co ≠ [])
       ∨ (e = AttributeError "_with_ctes"
          ∧ (_with_ctes o = None ∨ _with_ctes s = None))
       ∨ (Query_combine (q_host s) (q_host o) connector).1 = Raise e)
  ∧ (∀ using_ connection e,
       get_compiler h self using_ connection = Raise e →
       (using_ = None ∧ connection = None
        ∧ e = ValueError "Need either using or connection")
       ∨ (annotation_select (q_host s) ≠ [] ∧ e = AttributeError "ops")
       ∨ (∃ alias, using_ = Some alias ∧ truthy_str alias = true
                   ∧ connections alias = Raise e)
       ∨ (∃ c ae, ae ∈ annotation_select (q_host s)
                  ∧ check_expression_support c ae.2 = Raise e))
  ∧ (∀ _name klass args e,
       (__chain self _name klass args h).1 = Raise e →
       Query_copy _name (q_host s) (QUERY_TYPES_get klass (q_class s)) args
       = Raise e
       ∨ (_with_ctes s = None ∧ e = AttributeError "_with_ctes"))
  ∧ (∀ fuel connection as_sql_callback e,
       generate_sql fuel h connection self as_sql_callback = Raise e →
       as_sql_callback () = Raise e
       ∨ (_with_ctes s = None ∧ e = AttributeError "_with_ctes")
       ∨ ∃ todo cte, with_ctes h self = Ok todo ∧ cte ∈ todo
            ∧ compile_cte (λ c, as_sql fuel h c no_args) h connection cte
              = Raise e)
  ∧ (∀ cls args e,
       (construct cls args h).1 = Raise e → Query__init__ cls args = Raise e)
  ∧ (∀ cls e,
       (from_query cls other h).1 = Raise e →
       (∃ a, a ∈ from_query_attrs ∧ host_getattr (q_host o) a = None
             ∧ e = AttributeError a)
       ∨ ∃ model where_class,
           Query__init__ cls (init_kwargs model where_class) = Raise e).
Proof.
  intros Hs Ho. split_and!.
  - intros ls lo cs co Hself Hother Hne Hne'.
    by rewrite (combine_run_both h self other ls lo cs co).
  - intros e. by apply combine_Raise.
  - intros using_ connection e. by apply get_compiler_Raise.
  - intros _name klass args e. by apply __chain_Raise.
  - intros fuel connection as_sql_callback e. by apply generate_sql_Raise_any.
  - intros cls args e. apply construct_Raise.
  - intros cls e. by apply from_query_Raise.
Qed.

End OwnErrors.

(** * The errors and the copies on concrete queries *)

Lemma shim_own_errors_witness :
  (@combine attr_host 1%positive 4%positive "AND" attr_store).1
  = Raise (TypeError "cannot merge queries with CTEs on both sides").
Proof.
  refine (proj1 (@shim_own_errors attr_host attr_attrs attr_store
                   1%positive 4%positive
                   (attr_obj CTEQuery
                      (("model", "Node") :: ("sql", "SELECT * FROM first, tree")
                         :: ((λ a, (a, a)) <$> from_query_attrs))
                      (Some 1%positive))
                   (attr_obj CTEQuery [("sql", "SELECT * FROM other")]
                      (Some 4%positive))
                   "AND" _ _)
                1%positive 4%positive
                [ {| name := "first"; query := 3%positive |};
                  {| name := "tree"; query := 2%positive |} ]
                [ {| name := "other"; query := 3%positive |} ] _ _ _ _).
  - vm_compute. reflexivity.
  - vm_compute. reflexivity.
  - eexists. vm_compute. repeat split; reflexivity.
  - eexists. vm_compute. repeat split; reflexivity.
  - discriminate.
  - discriminate.
Defined.

(** [combine] with a query of the host raises an error of the shim's own
    that is not the [TypeError]: the host's [combine] answers on the same
    two queries. *)
Lemma combine_raises_AttributeError_of_its_own :
  (combine 1%positive 3%positive "AND" toy_store).1
  = Raise (AttributeError "_with_ctes")
  ∧ AttributeError "_with_ctes"
    ≠ TypeError "cannot merge queries with CTEs on both sides"
  ∧ (Query_combine
       {| toy_sql := "SELECT * FROM a, b"; toy_params := [7];
          toy_combinator := None |}
       {| toy_sql := "SELECT y"; toy_params := [3]; toy_combinator := None |}
       "AND").1 = Ok ().
Proof. split; [vm_compute; reflexivity|]. split; [discriminate|reflexivity]. Qed.

Lemma shim_copy_copies_list_witness :
  ∃ copy lc h',
    chain 1%positive (Some UpdateQuery) toy_store = (Ok copy, h')
    ∧ copy ≠ 1%positive ∧ lc ≠ 1%positive
    ∧ carries h' copy lc [ {| name := "a"; query := 2%positive |};
                           {| name := "b"; query := 3%positive |} ].
Proof.
  destruct (shim_copy_copies_list toy_store 1%positive
              (toy_obj CTEQuery "SELECT * FROM a, b" [7] None (Some 1%positive))
              1%positive
              [ {| name := "a"; query := 2%positive |};
                {| name := "b"; query := 3%positive |} ]
              (Some UpdateQuery) no_args
              {| toy_sql := "SELECT * FROM a, b"; toy_params := [7];
                 toy_combinator := None |})
    as (copy & lc & h' & Hrun & Hcopy & Hlc & Hcarries & _).
  - vm_compute. reflexivity.
  - reflexivity.
  - vm_compute. reflexivity.
  - reflexivity.
  - exists copy, lc, h'. repeat split; assumption.
Defined.

(** On a host from 2.0 on, [clone] is the host's: the copy holds the list
    object of the original, and a CTE appended to the list of the copy is
    in the list of the original. *)
Lemma clone_shares_list_from_2_0 :
  ∃ copy l h' h'',
    clone 1%positive None no_args toy_store = (Ok copy, h')
    ∧ copy ≠ 1%positive
    ∧ getattr_with_ctes h' copy = Ok l
    ∧ getattr_with_ctes h' 1%positive = Ok l
    ∧ with_ctes h' 1%positive
      = Ok [ {| name := "a"; query := 2%positive |};
             {| name := "b"; query := 3%positive |} ]
    ∧ list_append l {| name := "e"; query := 3%positive |} h' = (Ok (), h'')
    ∧ with_ctes h'' 1%positive
      = Ok [ {| name := "a"; query := 2%positive |};
             {| name := "b"; query := 3%positive |};
             {| name := "e"; query := 3%positive |} ].
Proof.
  eexists _, _, _, _.
  split; [vm_compute; reflexivity|].
  split; [discriminate|].
  split; [vm_compute; reflexivity|].
  split; [vm_compute; reflexivity|].
  split; [vm_compute; reflexivity|].
  split; [vm_compute; reflexivity|].
  vm_compute. reflexivity.
Qed.
